(** * api.video TypeScript uploader: chunked upload, retrier and credentials

    A shallow embedding of [abstract-uploader.ts] and [video-uploader.ts].

    Conventions of the embedding.
    - A JavaScript [number] that the code only ever uses as an integer (byte
      offsets, chunk ordinals, HTTP statuses, retry counters, delays) is a
      [Z].  The two places where the code leaves the integers,
      [Math.ceil(fileSize / chunkSize)] and [Math.floor(200 + ...)], are
      computed over the rationals [Q] (exact division; the rounding of IEEE
      doubles is not modelled).
    - An optional property is an [option]; [None] is the absent key or
      [undefined].  JavaScript truthiness is written out: the empty string
      and the number 0 are falsy.
    - A [throw new Error(msg)] is the [Throw] result carrying [msg].
    - [this.headers] is a finite map from header names to values.
    - Asynchronous code is modelled by what it does between two events of
      the event loop: a request is a value appended to a log, the answer of
      the network is an input event.  A promise is given by its state
      ([Settlement]); [await] waits for a promise and hands any other value
      back as it is.
    - [console.log] calls and the progress and playable callbacks have no
      influence on the modelled results and are left out. *)

From Stdlib Require Import ZArith QArith Qround String Ascii List Lia Bool.
From stdpp Require Import gmap strings.
Import ListNotations.
Open Scope string_scope.
Open Scope Z_scope.

(* ===================================================================== *)
(** ** JavaScript primitives *)
(* ===================================================================== *)

(** [!!s] for a string: only the empty string is falsy. *)
Definition truthy_string (s : string) : bool := negb (String.eqb s "").

(** [!!n] for an integer number: only 0 is falsy. *)
Definition truthy_number (n : Z) : bool := negb (Z.eqb n 0).

(** Truthiness of an optional property ([undefined] is falsy). *)
Definition truthy_opt {A} (truthy : A -> bool) (o : option A) : bool :=
  match o with
  | Some a => truthy a
  | None => false
  end.

(** [o || d] where the operand is an optional property. *)
Definition or_else {A} (truthy : A -> bool) (o : option A) (d : A) : A :=
  match o with
  | Some a => if truthy a then a else d
  | None => d
  end.

Definition Math_ceil (x : Q) : Z := Qceiling x.
Definition Math_floor (x : Q) : Z := Qfloor x.

(** A thrown [Error]; only the message is observable. *)
Inductive JsError : Type :=
| Error (message : string).

(** Result of code that may throw synchronously. *)
Inductive Throws (A : Type) : Type :=
| Ok (a : A)
| Throw (e : JsError).
Arguments Ok {A} a.
Arguments Throw {A} e.

Definition bind {A B} (m : Throws A) (k : A -> Throws B) : Throws B :=
  match m with
  | Ok a => k a
  | Throw e => Throw e
  end.

Notation "'let!' x ':=' m 'in' k" := (bind m (fun x => k))
  (at level 10, x name, m at level 100, k at level 200).
Notation "'check!' m 'in' k" := (bind m (fun _ => k))
  (at level 10, m at level 100, k at level 200).

Definition succeeded {A} (m : Throws A) : bool :=
  match m with
  | Ok _ => true
  | Throw _ => false
  end.

(** [btoa]: base64 of a binary string. *)
Definition b64_alphabet : string :=
  "ABCDEFGHIJKLMNOPQRSTUVWXYZabcdefghijklmnopqrstuvwxyz0123456789+/".

Definition b64_char (n : N) : ascii :=
  match String.get (N.to_nat n) b64_alphabet with
  | Some c => c
  | None => "="%char
  end.

Fixpoint b64_groups (l : list N) : string :=
  match l with
  | a :: b :: c :: rest =>
      String (b64_char (a / 4))
        (String (b64_char ((a mod 4) * 16 + b / 16))
           (String (b64_char ((b mod 16) * 4 + c / 64))
              (String (b64_char (c mod 64)) (b64_groups rest))))
  | [a; b] =>
      String (b64_char (a / 4))
        (String (b64_char ((a mod 4) * 16 + b / 16))
           (String (b64_char ((b mod 16) * 4)) "="))
  | [a] =>
      String (b64_char (a / 4)) (String (b64_char ((a mod 4) * 16)) "==")
  | [] => ""
  end%N.

Definition btoa (s : string) : string :=
  b64_groups (map N_of_ascii (list_ascii_of_string s)).

(* ===================================================================== *)
(** ** Constants and data types of abstract-uploader.ts *)
(* ===================================================================== *)

Definition MIN_CHUNK_SIZE : Z := 1024 * 1024 * 5.
Definition DEFAULT_CHUNK_SIZE : Z := 1024 * 1024 * 50.
Definition MAX_CHUNK_SIZE : Z := 1024 * 1024 * 128.
Definition DEFAULT_RETRIES : Z := 6.
Definition DEFAULT_API_HOST : string := "ws.api.video".

(** [VideoUploadResponse]; of the optional members only those the uploader
    touches are kept.  The server's JSON may leave [videoId] out, whatever
    the declared type says. *)
Record VideoUploadResponse : Type := {
  videoId : option string;
  title : option string;
  _public : option bool
}.

Record VideoUploadError : Type := {
  status : option Z;
  type : option string;
  err_title : option string;
  reason : option string;
  raw : option string
}.

Definition RetryStrategy : Type := Z -> VideoUploadError -> option Z.

Record Origin : Type := {
  name : string;
  version : string
}.

Record OriginOptions : Type := {
  application : option Origin;
  sdk : option Origin
}.

(** A [File]: its size in bytes and its name. *)
Record File : Type := {
  size : Z;
  file_name : string
}.

(** The constructor options: [CommonOptions], the three credential shapes
    and [UploadOptions] in one record.  The credential members are [None]
    when the key is absent, which is what [hasOwnProperty] tests. *)
Record Options : Type := {
  opt_apiHost : option string;
  opt_retries : option Z;
  opt_videoName : option string;
  opt_retryStrategy : option RetryStrategy;
  opt_origin : option OriginOptions;
  opt_testlifyStorageSignedUrl : option string;
  opt_skipUploadToAPIVideo : option bool;
  opt_uploadToken : option string;
  opt_accessToken : option string;
  opt_refreshToken : option string;
  opt_apiKey : option string;
  opt_videoId : option string;
  opt_file : option File;
  opt_chunkSize : option Z
}.

(** The fields of an [AbstractUploader] instance. *)
Record AbstractUploader : Type := {
  uploadEndpoint : string;
  this_videoId : option string;
  retries : Z;
  headers : gmap string string;
  refreshToken : option string;
  apiHost : string;
  retryStrategy : RetryStrategy;
  testlifyStorageSignedUrl : option string;
  skipUploadToAPIVideo : bool
}.

Definition set_videoId (this : AbstractUploader) (v : option string)
  : AbstractUploader :=
  {| uploadEndpoint := uploadEndpoint this;
     this_videoId := v;
     retries := retries this;
     headers := headers this;
     refreshToken := refreshToken this;
     apiHost := apiHost this;
     retryStrategy := retryStrategy this;
     testlifyStorageSignedUrl := testlifyStorageSignedUrl this;
     skipUploadToAPIVideo := skipUploadToAPIVideo this |}.

Definition set_credentials (this : AbstractUploader)
    (authorization : string) (token : option string) : AbstractUploader :=
  {| uploadEndpoint := uploadEndpoint this;
     this_videoId := this_videoId this;
     retries := retries this;
     headers := <["Authorization" := authorization]> (headers this);
     refreshToken := token;
     apiHost := apiHost this;
     retryStrategy := retryStrategy this;
     testlifyStorageSignedUrl := testlifyStorageSignedUrl this;
     skipUploadToAPIVideo := skipUploadToAPIVideo this |}.

(* ===================================================================== *)
(** ** DEFAULT_RETRY_STRATEGY *)
(* ===================================================================== *)

(** [error.status && error.status >= 400 && error.status < 500] *)
Definition is_client_error (error : VideoUploadError) : bool :=
  match status error with
  | Some s => truthy_number s && (400 <=? s) && (s <? 500)
  | None => false
  end.

Definition DEFAULT_RETRY_STRATEGY (maxRetries : Z) : RetryStrategy :=
  fun retryCount error =>
    if is_client_error error || (maxRetries <=? retryCount)
    then None
    else Some (Math_floor (200 + 2000 * inject_Z retryCount
                                 * (inject_Z retryCount + 1))%Q).

(* ===================================================================== *)
(** ** AbstractUploader: constructor *)
(* ===================================================================== *)

Definition is_digit (c : ascii) : bool :=
  let n := N_of_ascii c in ((48 <=? n) && (n <=? 57))%N.

(** [\w]: letters, digits and the underscore. *)
Definition is_word_char (c : ascii) : bool :=
  let n := N_of_ascii c in
  (is_digit c || ((65 <=? n) && (n <=? 90)) || ((97 <=? n) && (n <=? 122))
   || (n =? 95))%N.

Definition length_between (lo hi : nat) {A} (l : list A) : bool :=
  (Nat.leb lo (length l) && Nat.leb (length l) hi)%bool.

(** [/^[\w-]{1,50}$/.test(s)] *)
Definition name_pattern (s : string) : bool :=
  let l := list_ascii_of_string s in
  length_between 1 50 l
  && forallb (fun c => is_word_char c || Ascii.eqb c "-"%char) l.

(** The maximal runs between the dots of a string. *)
Fixpoint split_dots (l : list ascii) (cur : list ascii) : list (list ascii) :=
  match l with
  | [] => [rev cur]
  | c :: l' =>
      if Ascii.eqb c "."%char then rev cur :: split_dots l' []
      else split_dots l' (c :: cur)
  end.

(** [/^\d{1,3}(\.\d{1,3}(\.\d{1,3})?)?$/.test(s)]: one to three groups of
    one to three digits, separated by dots. *)
Definition version_pattern (s : string) : bool :=
  let groups := split_dots (list_ascii_of_string s) [] in
  length_between 1 3 groups
  && forallb (fun g => length_between 1 3 g && forallb is_digit g) groups.

Definition validateOrigin (type : string) (origin : Origin) : Throws unit :=
  if negb (truthy_string (name origin)) then
    Throw (Error (type +:+ " name is required"))
  else if negb (truthy_string (version origin)) then
    Throw (Error (type +:+ " version is required"))
  else if negb (name_pattern (name origin)) then
    Throw (Error ("Invalid " +:+ type +:+
      " name value. Allowed characters: A-Z, a-z, 0-9, '-', '_'. Max length: 50."))
  else if negb (version_pattern (version origin)) then
    Throw (Error ("Invalid " +:+ type +:+
      " version value. The version should match the xxx[.yyy][.zzz] pattern."))
  else Ok tt.

(** The three modes of the [if / else if] chain on the credential keys, with
    what each one contributes: the endpoint, the stored resource id, the
    refresh token and the Authorization header. *)
Definition credentials (host : string) (skip : bool) (options : Options)
  : Throws (string * option string * option string * gmap string string) :=
  match opt_uploadToken options with
  | Some uploadToken =>
      Ok ("https://" +:+ host +:+ "/upload?token=" +:+ uploadToken,
          (if truthy_opt truthy_string (opt_videoId options)
           then opt_videoId options else None),
          None, ∅)
  | None =>
  match opt_accessToken options with
  | Some accessToken =>
      match opt_videoId options with
      | Some id =>
          if truthy_string id then
            Ok ("https://" +:+ host +:+ "/videos/" +:+ id +:+ "/source",
                None, opt_refreshToken options,
                {["Authorization" := "Bearer " +:+ accessToken]})
          else Throw (Error "'videoId' is missing")
      | None => Throw (Error "'videoId' is missing")
      end
  | None =>
  match opt_apiKey options with
  | Some apiKey =>
      match opt_videoId options with
      | Some id =>
          if truthy_string id then
            Ok ("https://" +:+ host +:+ "/videos/" +:+ id +:+ "/source",
                None, None,
                {["Authorization" := "Basic " +:+ btoa (apiKey +:+ ":")]})
          else Throw (Error "'videoId' is missing")
      | None => Throw (Error "'videoId' is missing")
      end
  | None =>
      if negb skip then
        Throw (Error
          "You must provide either an accessToken, an uploadToken or an API key")
      else Ok ("", None, None, ∅)
  end end end.

(** The [options.origin] block: validation and the two origin headers. *)
Definition origin_headers (options : Options) (h : gmap string string)
  : Throws (gmap string string) :=
  match opt_origin options with
  | None => Ok h
  | Some o =>
      let! h1 :=
        match application o with
        | None => Ok h
        | Some app =>
            check! validateOrigin "application" app in
            Ok (<["AV-Origin-App" := name app +:+ ":" +:+ version app]> h)
        end in
      match sdk o with
      | None => Ok h1
      | Some s =>
          check! validateOrigin "sdk" s in
          Ok (<["AV-Origin-Sdk" := name s +:+ ":" +:+ version s]> h1)
      end
  end.

(** The constructor.  [PACKAGE_VERSION] is the build-time constant (the
    empty string when the build does not define it). *)
Definition AbstractUploader_constructor (PACKAGE_VERSION : string)
    (options : Options) : Throws AbstractUploader :=
  let host := or_else truthy_string (opt_apiHost options) DEFAULT_API_HOST in
  let skip := or_else (fun b : bool => b) (opt_skipUploadToAPIVideo options) false in
  let! c := credentials host skip options in
  let '(endpoint, id, token, h0) := c in
  let h1 := <["AV-Origin-Client" := "typescript-uploader:" +:+ PACKAGE_VERSION]> h0 in
  let n := or_else truthy_number (opt_retries options) DEFAULT_RETRIES in
  let strategy :=
    match opt_retryStrategy options with
    | Some s => s
    | None => DEFAULT_RETRY_STRATEGY n
    end in
  let! h2 := origin_headers options h1 in
  Ok {| uploadEndpoint := endpoint;
        this_videoId := id;
        retries := n;
        headers := h2;
        refreshToken := token;
        apiHost := host;
        retryStrategy := strategy;
        testlifyStorageSignedUrl := opt_testlifyStorageSignedUrl options;
        skipUploadToAPIVideo := skip |}.

(* ===================================================================== *)
(** ** VideoUploader: constructor and chunk planning *)
(* ===================================================================== *)

Record VideoUploader : Type := {
  base : AbstractUploader;
  file : File;
  chunkSize : Z;
  chunksCount : Z;
  fileSize : Z;
  fileName : string
}.

(** [Math.ceil(fileSize / chunkSize)] *)
Definition count_chunks (fileSize chunkSize : Z) : Z :=
  Math_ceil (inject_Z fileSize / inject_Z chunkSize)%Q.

Definition invalid_chunk_size : JsError :=
  Error "Invalid chunk size. Minimal allowed value: 5MB, maximum allowed value: 128MB.".

Definition VideoUploader_constructor (PACKAGE_VERSION : string)
    (options : Options) : Throws VideoUploader :=
  let! super := AbstractUploader_constructor PACKAGE_VERSION options in
  match opt_file options with
  | None => Throw (Error "'file' is missing")
  | Some f =>
      if truthy_opt truthy_number (opt_chunkSize options)
         && truthy_opt (fun c => (c <? MIN_CHUNK_SIZE) || (c >? MAX_CHUNK_SIZE))
                       (opt_chunkSize options)
      then Throw invalid_chunk_size
      else
        let cs := or_else truthy_number (opt_chunkSize options) DEFAULT_CHUNK_SIZE in
        Ok {| base := super;
              file := f;
              chunkSize := cs;
              chunksCount := count_chunks (size f) cs;
              fileSize := size f;
              fileName := file_name f |}
  end.

(** [firstByte] and [lastByte] of [uploadCurrentChunk]. *)
Definition firstByte (chunkSize chunkNumber : Z) : Z := chunkNumber * chunkSize.

Definition lastByte (fileSize chunkSize chunkNumber : Z) : Z :=
  let computedLastByte := (chunkNumber + 1) * chunkSize in
  if computedLastByte >? fileSize then fileSize else computedLastByte.

(* ===================================================================== *)
(** ** Requests, answers of the network, promises *)
(* ===================================================================== *)

(** A [Blob] cut out of the file: the bytes [blob_first, blob_last). *)
Record Blob : Type := {
  blob_first : Z;
  blob_last : Z
}.

Definition blob_size (b : Blob) : Z := blob_last b - blob_first b.

Definition whole_file (f : File) : Blob :=
  {| blob_first := 0; blob_last := size f |}.

(** [file.slice(startByte, endByte)]: both ends are clamped to the file, a
    negative end counts from the end of the file. *)
Definition slice (f : File) (startByte endByte : Z) : Blob :=
  let relative x := if x <? 0 then Z.max (size f + x) 0 else Z.min x (size f) in
  let s := relative startByte in
  let e := relative endByte in
  {| blob_first := s; blob_last := s + Z.max (e - s) 0 |}.

(** The multipart body: the optional [videoId] field and the [file] part. *)
Record FormData : Type := {
  form_videoId : option string;
  form_file : Blob;
  form_fileName : string
}.

Record HXRRequestParams : Type := {
  parts : option (Z * Z);
  body : FormData
}.

(** What goes out on the wire. *)
Inductive Request : Type :=
| UploadRequest (url : string) (contentRange : option (Z * Z))
    (requestHeaders : gmap string string) (form : FormData)
| RefreshRequest (url : string) (requestHeaders : gmap string string)
    (token : option string).

(** The members of a parsed JSON body that the code reads; [None] is an
    absent key. *)
Record Json : Type := {
  j_videoId : option string;
  j_title : option string;
  j_public : option bool;
  j_status : option Z;
  j_type : option string;
  j_reason : option string;
  j_raw : option string;
  j_access_token : option string;
  j_refresh_token : option string
}.

(** A completed XMLHttpRequest: [xhr.status], [xhr.response] and the value
    of [JSON.parse(xhr.response)], [None] when parsing throws. *)
Record Xhr : Type := {
  xhr_status : Z;
  xhr_response : string;
  xhr_json : option Json
}.

(** How the network ends one request. *)
Inductive XhrEvent : Type :=
| Loaded (xhr : Xhr)
| NetworkError
| NetworkTimeout.

(** State of a promise. *)
Inductive Settlement (A : Type) : Type :=
| Resolved (a : A)
| Rejected (e : VideoUploadError)
| Pending.
Arguments Resolved {A} a.
Arguments Rejected {A} e.
Arguments Pending {A}.

Definition transport_failure (why : string) : VideoUploadError :=
  {| status := None; type := None; err_title := None;
     reason := Some why; raw := None |}.

(** A member of [{ key: d, ...parsed }]: the parsed object wins when it
    has the key. *)
Definition spread {A} (o : option A) (d : A) : option A :=
  match o with
  | Some a => Some a
  | None => Some d
  end.

(** [{ status: xhr.status, raw: xhr.response, ...parsedResponse }], or the
    fallback when [JSON.parse] throws. *)
Definition parseErrorResponse (xhr : Xhr) : VideoUploadError :=
  match xhr_json xhr with
  | Some j =>
      {| status := spread (j_status j) (xhr_status xhr);
         type := j_type j;
         err_title := j_title j;
         reason := j_reason j;
         raw := spread (j_raw j) (xhr_response xhr) |}
  | None =>
      {| status := Some (xhr_status xhr);
         type := None;
         err_title := None;
         reason := Some "UNKWOWN";
         raw := Some (xhr_response xhr) |}
  end.

Definition apiResponseToVideoUploadResponse (response : Json)
  : VideoUploadResponse :=
  {| videoId := j_videoId response;
     title := j_title response;
     _public := j_public response |}.

(* ===================================================================== *)
(** ** AbstractUploader: createFormData, doRefreshToken, createXhrPromise *)
(* ===================================================================== *)

Definition createFormData (this : AbstractUploader) (f : File)
    (fileName : string) (startByte endByte : Z) : FormData :=
  let chunk :=
    if truthy_number startByte || truthy_number endByte
    then slice f startByte endByte
    else whole_file f in
  {| form_videoId :=
       if truthy_opt truthy_string (this_videoId this)
       then this_videoId this else None;
     form_file := chunk;
     form_fileName := fileName |}.

(** The request [doRefreshToken] sends: every header but Authorization. *)
Definition refresh_request (this : AbstractUploader) : Request :=
  RefreshRequest ("https://" +:+ apiHost this +:+ "/auth/refresh")
    (delete "Authorization" (headers this)) (refreshToken this).

(** [doRefreshToken], given how the network ends its request.  The
    [onreadystatechange] handler runs before [onload]; the promise keeps
    its first settlement.  Without an [onerror] handler a transport failure
    leaves the promise pending, and so does a body that does not parse. *)
Definition doRefreshToken (this : AbstractUploader) (ev : XhrEvent)
  : AbstractUploader * Settlement unit :=
  match ev with
  | Loaded xhr =>
      let onload :=
        match xhr_json xhr with
        | Some response =>
            match j_access_token response with
            | Some access =>
                if truthy_opt truthy_string (j_refresh_token response)
                   && truthy_string access
                then (set_credentials this ("Bearer " +:+ access)
                        (j_refresh_token response), Resolved tt)
                else (this, Rejected (parseErrorResponse xhr))
            | None => (this, Rejected (parseErrorResponse xhr))
            end
        | None => (this, Pending)
        end in
      if xhr_status xhr >=? 400
      then (fst onload, Rejected (parseErrorResponse xhr))
      else onload
  | NetworkError | NetworkTimeout => (this, Pending)
  end.

(** The request [createXhrPromise] sends. *)
Definition upload_request (this : AbstractUploader) (params : HXRRequestParams)
  : Request :=
  UploadRequest (uploadEndpoint this) (parts params) (headers this) (body params).

(** One run of [createXhrPromise]. *)
Record XhrRun : Type := {
  run_this : AbstractUploader;
  run_sent : list Request;
  run_result : Settlement VideoUploadResponse;
  run_rest : list XhrEvent
}.

Definition sent_before (rs : list Request) (run : XhrRun) : XhrRun :=
  {| run_this := run_this run;
     run_sent := rs ++ run_sent run;
     run_result := run_result run;
     run_rest := run_rest run |}.

(** [createXhrPromise(params, abortController)] against a network that ends
    the requests, in the order they are sent, as [network] lists; a request
    the list has no entry for is never answered.  The abort listener belongs
    to the retrier machine below. *)
Fixpoint createXhrPromise (this : AbstractUploader) (params : HXRRequestParams)
    (network : list XhrEvent) : XhrRun :=
  let sent := upload_request this params in
  let settle this' rs s rest :=
    {| run_this := this'; run_sent := rs; run_result := s; run_rest := rest |} in
  match network with
  | [] => settle this [sent] Pending []
  | NetworkError :: rest =>
      settle this [sent] (Rejected (transport_failure "NETWORK_ERROR")) rest
  | NetworkTimeout :: rest =>
      settle this [sent] (Rejected (transport_failure "NETWORK_TIMEOUT")) rest
  | Loaded xhr :: rest =>
      if (xhr_status xhr =? 401) && truthy_opt truthy_string (refreshToken this)
      then
        match rest with
        | [] => settle this [sent; refresh_request this] Pending []
        | ev :: rest' =>
            match doRefreshToken this ev with
            | (this', Resolved _) =>
                sent_before [sent; refresh_request this]
                  (createXhrPromise this' params rest')
            | (this', Rejected e) =>
                settle this' [sent; refresh_request this] (Rejected e) rest'
            | (this', Pending) =>
                settle this' [sent; refresh_request this] Pending rest'
            end
        end
      else if xhr_status xhr >=? 400
      then settle this [sent] (Rejected (parseErrorResponse xhr)) rest
      else
        match xhr_json xhr with
        | Some response =>
            settle this [sent]
              (Resolved (apiResponseToVideoUploadResponse response)) rest
        | None => settle this [sent] Pending rest
        end
  end.

Definition is_upload (r : Request) : bool :=
  match r with
  | UploadRequest _ _ _ _ => true
  | RefreshRequest _ _ _ => false
  end.

Definition upload_calls (run : XhrRun) : nat :=
  length (filter is_upload (run_sent run)).

Definition refresh_calls (run : XhrRun) : nat :=
  length (filter (fun r => negb (is_upload r)) (run_sent run)).

(** The Authorization header a request carries. *)
Definition authorization_of (r : Request) : option string :=
  match r with
  | UploadRequest _ _ h _ => h !! "Authorization"
  | RefreshRequest _ h _ => h !! "Authorization"
  end.

(* ===================================================================== *)
(** ** AbstractUploader: withRetrier *)
(* ===================================================================== *)

(** Where the [async] body of [withRetrier] is suspended. *)
Inductive Phase : Type :=
| Attempting (listening : bool)
    (** in [await fn(abortController)]; [listening] tells whether the abort
        listener that this call of [createXhrPromise] added can still fire,
        that is whether the signal had not fired before the call *)
| Sleeping (retryDelay : Z)
    (** in [await this.sleep(retryDelay)] *)
| Settled (s : Settlement VideoUploadResponse).

(** One operation made by [withRetrier]: its local [retriesCount], its
    abort controller and its entry of [this.abortControllers]. *)
Record Retrier : Type := {
  retriesCount : Z;
  phase : Phase;
  signal_aborted : bool;
  registered : bool;
  fn_calls : list bool;
    (** one entry per call of [fn], oldest first: [signal.aborted] at the call *)
  slept : list Z
    (** the delays handed to [sleep], oldest first *)
}.

(** What can happen to a suspended operation. *)
Inductive RetrierEvent : Type :=
| FnResolved (res : VideoUploadResponse)
| FnRejected (e : VideoUploadError)
| TimerFired
| Cancel.

Definition in_phase (r : Retrier) (p : Phase) : Retrier :=
  {| retriesCount := retriesCount r;
     phase := p;
     signal_aborted := signal_aborted r;
     registered := registered r;
     fn_calls := fn_calls r;
     slept := slept r |}.

(** [fn(abortController)]: the transport call of one attempt. *)
Definition call_fn (r : Retrier) : Retrier :=
  {| retriesCount := retriesCount r;
     phase := Attempting (negb (signal_aborted r));
     signal_aborted := signal_aborted r;
     registered := registered r;
     fn_calls := fn_calls r ++ [signal_aborted r];
     slept := slept r |}.

(** [await this.sleep(retryDelay)] *)
Definition sleep (r : Retrier) (retryDelay : Z) : Retrier :=
  {| retriesCount := retriesCount r;
     phase := Sleeping retryDelay;
     signal_aborted := signal_aborted r;
     registered := registered r;
     fn_calls := fn_calls r;
     slept := slept r ++ [retryDelay] |}.

(** [retriesCount++] once the sleep is over. *)
Definition woken (r : Retrier) : Retrier :=
  {| retriesCount := retriesCount r + 1;
     phase := phase r;
     signal_aborted := signal_aborted r;
     registered := registered r;
     fn_calls := fn_calls r;
     slept := slept r |}.

(** [this.abortControllers[id].abort(); delete this.abortControllers[id]] *)
Definition aborted_and_deleted (r : Retrier) : Retrier :=
  {| retriesCount := retriesCount r;
     phase := phase r;
     signal_aborted := true;
     registered := false;
     fn_calls := fn_calls r;
     slept := slept r |}.

Definition is_aborted (e : VideoUploadError) : bool :=
  match reason e with
  | Some why => String.eqb why "ABORTED"
  | None => false
  end.

(** The operation as [withRetrier] returns it: the controller is
    registered, [retriesCount] is 0, and the body has run up to its first
    [await], so the first call of [fn] is under way. *)
Definition withRetrier : Retrier :=
  {| retriesCount := 0;
     phase := Attempting true;
     signal_aborted := false;
     registered := true;
     fn_calls := [false];
     slept := [] |}.

(** One event.  [strategy] is [this.retryStrategy].
    - The attempt settles: the [try] / [catch] of the loop.
    - The timer of [sleep] fires: the counter goes up and [fn] is called.
    - [cancel()]: the controller is aborted and its entry deleted; the
      listener of a pending attempt aborts the request and rejects it with
      ABORTED, which the [catch] passes on.  A second [cancel()] finds no
      entry and throws, changing nothing.
    An event that cannot occur in a phase leaves the operation as it is. *)
Definition step (strategy : RetryStrategy) (r : Retrier) (ev : RetrierEvent)
  : Retrier :=
  match ev, phase r with
  | FnResolved res, Attempting _ => in_phase r (Settled (Resolved res))
  | FnRejected e, Attempting _ =>
      if is_aborted e then in_phase r (Settled (Rejected e))
      else
        match strategy (retriesCount r) e with
        | None => in_phase r (Settled (Rejected e))
        | Some retryDelay => sleep r retryDelay
        end
  | TimerFired, Sleeping _ => call_fn (woken r)
  | Cancel, p =>
      if registered r then
        match p with
        | Attempting true =>
            in_phase (aborted_and_deleted r)
              (Settled (Rejected (transport_failure "ABORTED")))
        | _ => aborted_and_deleted r
        end
      else r
  | _, _ => r
  end.

Definition run (strategy : RetryStrategy) (r : Retrier)
    (events : list RetrierEvent) : Retrier :=
  fold_left (step strategy) events r.

(** The number of transport calls an operation has made so far. *)
Definition transport_calls (r : Retrier) : nat := length (fn_calls r).

(* ===================================================================== *)
(** ** VideoUploader: uploadCurrentChunk and upload *)
(* ===================================================================== *)

(** [CancelableOperation<VideoUploadResponse>]: the object
    [{ cancel, result }] that [withRetrier] builds in its [return]
    statement.  [result] is the promise, given by the operation it follows;
    [cancel] is the [Cancel] event on that operation.  [started] names the
    request the first attempt has sent by the time the object is returned. *)
Record CancelableOperation : Type := {
  started : HXRRequestParams;
  result : Retrier
}.


(** The values that [upload] handles. *)
Inductive JsValue : Type :=
| JsUndefined
| JsResponse (r : VideoUploadResponse)
| JsOperation (op : CancelableOperation).

(** The value of an expression: a promise, or a value that is not one. *)
Inductive JsResult : Type :=
| Plain (v : JsValue)
| Promise (s : Settlement JsValue).


(** [v.videoId] *)
Definition get_videoId (v : JsValue) : option string :=
  match v with
  | JsResponse r => videoId r
  | _ => None
  end.

(** [await x]: a promise is waited for; any other value (one without a
    [then] member) is what the expression evaluates to. *)
Definition await (x : JsResult) : Settlement JsValue :=
  match x with
  | Promise s => s
  | Plain v => Resolved v
  end.

(** [xhrWithRetrier(params)] returns what [withRetrier] returns, the
    [CancelableOperation]; by then the executor of the promise has called
    [fn], and [createXhrPromise] has sent the request. *)
Definition xhrWithRetrier (this : AbstractUploader) (params : HXRRequestParams)
  : CancelableOperation * Request :=
  ({| started := params; result := withRetrier |}, upload_request this params).

Definition uploadCurrentChunk (this : VideoUploader) (chunkNumber : Z)
  : CancelableOperation * Request :=
  let first := firstByte (chunkSize this) chunkNumber in
  let last := lastByte (fileSize this) (chunkSize this) chunkNumber in
  let count := count_chunks (fileSize this) (chunkSize this) in
  xhrWithRetrier (base this)
    {| parts := Some (chunkNumber + 1, count);
       body := createFormData (base this) (file this) (fileName this) first last |}.

Definition with_videoId (this : VideoUploader) (v : option string)
  : VideoUploader :=
  {| base := set_videoId (base this) v;
     file := file this;
     chunkSize := chunkSize this;
     chunksCount := chunksCount this;
     fileSize := fileSize this;
     fileName := fileName this |}.

(** What [upload] leaves behind: the uploader, the requests sent and the
    operations created, in order, and the state of the promise it returned. *)
Record UploadRun : Type := {
  up_this : VideoUploader;
  up_sent : list Request;
  up_operations : list CancelableOperation;
  up_promise : Settlement JsValue
}.

(** The [for] loop of [upload] with [todo] iterations left, [i] the loop
    variable and [res] the local of that name.  The body is
    [res = await this.uploadCurrentChunk(i); this.videoId = res.videoId]:
    [uploadCurrentChunk] returns the value of [this.xhrWithRetrier(...)],
    the [CancelableOperation], and that object is what [await] is given. *)
Fixpoint upload_loop (todo : nat) (this : VideoUploader) (i : Z)
    (res : JsValue) (sent : list Request) (ops : list CancelableOperation)
  : UploadRun :=
  match todo with
  | O => {| up_this := this; up_sent := sent; up_operations := ops;
            up_promise := Resolved res |}
  | S todo' =>
      let (op, rq) := uploadCurrentChunk this i in
      match await (Plain (JsOperation op)) with
      | Resolved v =>
          upload_loop todo' (with_videoId this (get_videoId v)) (i + 1) v
            (sent ++ [rq]) (ops ++ [op])
      | Rejected e =>
          {| up_this := this; up_sent := sent ++ [rq];
             up_operations := ops ++ [op]; up_promise := Rejected e |}
      | Pending =>
          {| up_this := this; up_sent := sent ++ [rq];
             up_operations := ops ++ [op]; up_promise := Pending |}
      end
  end.

(** [upload()]: the loop runs while [i < this.chunksCount]. *)
Definition upload (this : VideoUploader) : UploadRun :=
  upload_loop (Z.to_nat (chunksCount this)) this 0 JsUndefined [] [].

(** The value an [async] method returns to its caller. *)
Definition upload_returns (this : VideoUploader) : JsResult :=
  Promise (up_promise (upload this)).

(** The [videoId] field of the body of a request. *)
Definition body_videoId (r : Request) : option string :=
  match r with
  | UploadRequest _ _ _ form => form_videoId form
  | RefreshRequest _ _ _ => None
  end.

(** The bytes of the file a request carries. *)
Definition body_bytes (r : Request) : Z :=
  match r with
  | UploadRequest _ _ _ form => blob_size (form_file form)
  | RefreshRequest _ _ _ => 0
  end.

(* ===================================================================== *)
(** ** VideoUploader: progress events *)
(* ===================================================================== *)

Record UploadProgressEvent : Type := {
  uploadedBytes : Z;
  totalBytes : Z;
  progress_chunksCount : Z;
  chunksBytes : Z;
  currentChunk : Z;
  currentChunkUploadedBytes : Z
}.

(** [progressEventToUploadProgressEvent] of [uploadCurrentChunk]; of the
    [ProgressEvent] only [event.loaded] is read. *)
Definition progressEventToUploadProgressEvent (this : VideoUploader)
    (chunkNumber : Z) (loaded : Z) : UploadProgressEvent :=
  {| uploadedBytes := loaded + firstByte (chunkSize this) chunkNumber;
     totalBytes := fileSize this;
     progress_chunksCount := chunksCount this;
     chunksBytes := chunkSize this;
     currentChunk := chunkNumber + 1;
     currentChunkUploadedBytes := loaded |}.

(** [onProgress(cb)] and [onPlayable(cb)]: [push] on the list of
    callbacks.  A callback is known by a label of some type [C]. *)
Definition register {C} (callbacks : list C) (cb : C) : list C :=
  callbacks ++ [cb].

(** The [onProgress] member of the request parameters:
    [this.onProgressCallbacks.forEach(cb => cb(...))], as the calls it
    makes, in order. *)
Definition onProgress_calls {C} (onProgressCallbacks : list C)
    (this : VideoUploader) (chunkNumber : Z) (loaded : Z)
  : list (C * UploadProgressEvent) :=
  map (fun cb => (cb, progressEventToUploadProgressEvent this chunkNumber loaded))
    onProgressCallbacks.

(* ===================================================================== *)
(** ** AbstractUploader: waitForPlayable *)
(* ===================================================================== *)

(** How one [fetch(hls)] ends: a response with its status and text, or a
    rejection. *)
Inductive FetchEvent : Type :=
| Fetched (code : Z) (text : string)
| FetchFailed.

Inductive PollState : Type :=
| Notified       (** the loop was left and the callbacks were called *)
| FetchRejected  (** [fetch] rejected, and [waitForPlayable] with it *)
| Polling.       (** waiting for the answer of a [fetch] *)

(** One run of [waitForPlayable]: the urls fetched, the time slept in
    milliseconds, the calls of the playable callbacks, and where it is. *)
Record PlayableRun (C : Type) : Type := {
  fetched : list (option string);
  waited : Z;
  onPlayable_calls : list (C * VideoUploadResponse);
  poll_state : PollState
}.
Arguments fetched {C} _.
Arguments waited {C} _.
Arguments onPlayable_calls {C} _.
Arguments poll_state {C} _.

Definition another_round {C} (hls : option string) (run : PlayableRun C)
  : PlayableRun C :=
  {| fetched := hls :: fetched run;
     waited := 500 + waited run;
     onPlayable_calls := onPlayable_calls run;
     poll_state := poll_state run |}.

(** [waitForPlayable(video)], with [hls] the value of [video.assets?.hls],
    against fetches that end as [fetches] lists; a fetch the list has no
    entry for is never answered.  Every round sleeps 500 ms and fetches;
    status 202 and an empty text both mean another round. *)
Fixpoint waitForPlayable {C} (onPlayableCallbacks : list C)
    (video : VideoUploadResponse) (hls : option string)
    (fetches : list FetchEvent) : PlayableRun C :=
  let round state calls :=
    {| fetched := [hls]; waited := 500; onPlayable_calls := calls;
       poll_state := state |} in
  match fetches with
  | [] => round Polling []
  | FetchFailed :: _ => round FetchRejected []
  | Fetched code text :: rest =>
      if code =? 202 then
        another_round hls (waitForPlayable onPlayableCallbacks video hls rest)
      else if (String.length text =? 0)%nat then
        another_round hls (waitForPlayable onPlayableCallbacks video hls rest)
      else round Notified (map (fun cb => (cb, video)) onPlayableCallbacks)
  end.

(* ===================================================================== *)
(** ** Vocabulary of the statements and sample inputs *)
(* ===================================================================== *)

(** The byte ranges [first i, last i) for [0 <= i < count] tile
    [0, fileSize): they are non-empty, each starts where its predecessor
    ends, the first starts at 0, the last ends at [fileSize], and every byte
    of the file lies in exactly one of them. *)
Definition partitions (fileSize count : Z) (first last : Z -> Z) : Prop :=
  (0 < count -> first 0 = 0 /\ last (count - 1) = fileSize)
  /\ (forall i, 0 <= i < count -> first i < last i)
  /\ (forall i, 0 <= i -> i + 1 < count -> last i = first (i + 1))
  /\ (forall b, 0 <= b < fileSize ->
        exists i, (0 <= i < count /\ first i <= b < last i)
          /\ forall j, 0 <= j < count -> first j <= b < last j -> j = i).

(** The error carries an HTTP status in [400, 500). *)
Definition client_error (e : VideoUploadError) : Prop :=
  exists s, status e = Some s /\ 400 <= s < 500.

(** The [options.origin] block, when present, passes [validateOrigin]. *)
Definition origin_valid (options : Options) : bool :=
  succeeded (origin_headers options ∅).

(** The host and the bypass flag as the constructor reads them. *)
Definition host_of (options : Options) : string :=
  or_else truthy_string (opt_apiHost options) DEFAULT_API_HOST.

Definition skip_of (options : Options) : bool :=
  or_else (fun b : bool => b) (opt_skipUploadToAPIVideo options) false.

(** Options with the given credential keys, file, chunk size and retries,
    and nothing else. *)
Definition options_of (uploadToken accessToken refresh apiKey id : option string)
    (f : option File) (chunk n : option Z) : Options :=
  {| opt_apiHost := None;
     opt_retries := n;
     opt_videoName := None;
     opt_retryStrategy := None;
     opt_origin := None;
     opt_testlifyStorageSignedUrl := None;
     opt_skipUploadToAPIVideo := None;
     opt_uploadToken := uploadToken;
     opt_accessToken := accessToken;
     opt_refreshToken := refresh;
     opt_apiKey := apiKey;
     opt_videoId := id;
     opt_file := f;
     opt_chunkSize := chunk |}.

(** The same options with another [retries] member. *)
Definition with_retries (options : Options) (n : option Z) : Options :=
  {| opt_apiHost := opt_apiHost options;
     opt_retries := n;
     opt_videoName := opt_videoName options;
     opt_retryStrategy := opt_retryStrategy options;
     opt_origin := opt_origin options;
     opt_testlifyStorageSignedUrl := opt_testlifyStorageSignedUrl options;
     opt_skipUploadToAPIVideo := opt_skipUploadToAPIVideo options;
     opt_uploadToken := opt_uploadToken options;
     opt_accessToken := opt_accessToken options;
     opt_refreshToken := opt_refreshToken options;
     opt_apiKey := opt_apiKey options;
     opt_videoId := opt_videoId options;
     opt_file := opt_file options;
     opt_chunkSize := opt_chunkSize options |}.

(** A file of 12 MiB and an empty file. *)
Definition movie : File :=
  {| size := 12 * 1024 * 1024; file_name := "movie.mp4" |}.

Definition empty_file : File :=
  {| size := 0; file_name := "empty.mp4" |}.

(** Upload-token mode, chunks of 5 MiB: three chunks. *)
Definition token_options : Options :=
  options_of (Some "tok") None None None None (Some movie)
    (Some MIN_CHUNK_SIZE) None.

(** Access-token mode with a refresh token. *)
Definition access_options : Options :=
  options_of None (Some "acc0") (Some "ref0") None (Some "vi1") (Some movie)
    None None.

(** Two credential shapes at once: an upload token, and an access token
    with its video id. *)
Definition two_shapes_options : Options :=
  options_of (Some "tok") (Some "acc0") None None (Some "vi1") (Some movie)
    None None.

(** The caller asks for chunks of 0 bytes. *)
Definition zero_chunk_options : Options :=
  options_of (Some "tok") None None None None (Some movie) (Some 0) None.

(** An empty file in upload-token mode. *)
Definition empty_file_options : Options :=
  options_of (Some "tok") None None None None (Some empty_file) None None.

(** An answer with the given status and no usable body. *)
Definition answer (code : Z) : Xhr :=
  {| xhr_status := code; xhr_response := ""; xhr_json := None |}.

Definition json_of (id access refresh : option string) : Json :=
  {| j_videoId := id; j_title := None; j_public := None; j_status := None;
     j_type := None; j_reason := None; j_raw := None;
     j_access_token := access; j_refresh_token := refresh |}.

(** The refresh endpoint hands out a new pair of tokens. *)
Definition refreshed (access refresh : string) : XhrEvent :=
  Loaded {| xhr_status := 200; xhr_response := "";
            xhr_json := Some (json_of None (Some access) (Some refresh)) |}.

(** The upload endpoint accepts the chunk and names the video. *)
Definition accepted (id : string) : XhrEvent :=
  Loaded {| xhr_status := 201; xhr_response := "";
            xhr_json := Some (json_of (Some id) None None) |}.




(** The uploader that the base constructor makes of [access_options]. *)
Definition access_uploader : AbstractUploader :=
  {| uploadEndpoint := "https://ws.api.video/videos/vi1/source";
     this_videoId := None;
     retries := 6;
     headers := <["AV-Origin-Client" := "typescript-uploader:1.0.0"]>
                  {["Authorization" := "Bearer acc0"]};
     refreshToken := Some "ref0";
     apiHost := "ws.api.video";
     retryStrategy := DEFAULT_RETRY_STRATEGY 6;
     testlifyStorageSignedUrl := None;
     skipUploadToAPIVideo := false |}.

(** The parameters of a request for the whole of [movie]. *)
Definition sample_params : HXRRequestParams :=
  {| parts := Some (1, 1);
     body := {| form_videoId := None; form_file := whole_file movie;
                form_fileName := "movie.mp4" |} |}.

Definition server_error : VideoUploadError :=
  {| status := Some 503; type := None; err_title := None;
     reason := None; raw := Some "" |}.

Definition sample_response : VideoUploadResponse :=
  {| videoId := Some "vi1"; title := None; _public := None |}.

(** [groups] joined by dots. *)
Fixpoint join_dots (groups : list (list ascii)) : list ascii :=
  match groups with
  | [] => []
  | [g] => g
  | g :: groups' => g ++ "."%char :: join_dots groups'
  end.

(** One to three digits. *)
Definition digit_group (g : list ascii) : Prop :=
  (1 <= length g <= 3)%nat /\ Forall (fun c => is_digit c = true) g.

(** The members of a request. *)
Definition request_url (r : Request) : string :=
  match r with
  | UploadRequest url _ _ _ => url
  | RefreshRequest url _ _ => url
  end.

Definition request_headers (r : Request) : gmap string string :=
  match r with
  | UploadRequest _ _ h _ => h
  | RefreshRequest _ h _ => h
  end.

Definition request_parts (r : Request) : option (Z * Z) :=
  match r with
  | UploadRequest _ p _ _ => p
  | RefreshRequest _ _ _ => None
  end.

Definition request_form (r : Request) : option FormData :=
  match r with
  | UploadRequest _ _ _ form => Some form
  | RefreshRequest _ _ _ => None
  end.

(** The sum of a list of integers. *)
Definition total (l : list Z) : Z := fold_right Z.add 0 l.

(** The delay of the default strategy before retry [n + 1]. *)
Definition backoff (n : Z) : Z := 200 + 2000 * n * (n + 1).

(** The delays before the first [k] retries. *)
Definition backoffs (k : nat) : list Z :=
  map (fun i => backoff (Z.of_nat i)) (seq 0 k).

(** The events of attempts that fail with [errors], each followed by the
    end of the sleep. *)
Definition failures (errors : list VideoUploadError) : list RetrierEvent :=
  flat_map (fun e => [FnRejected e; TimerFired]) errors.

(** An error the default strategy retries: no status in [400, 500), and not
    the rejection of an aborted request. *)
Definition transient (e : VideoUploadError) : Prop :=
  ~ client_error e /\ is_aborted e = false.

(** What holds of an operation at any moment. *)
Definition retrier_invariant (r : Retrier) : Prop :=
  0 <= retriesCount r
  /\ Z.of_nat (transport_calls r) = retriesCount r + 1
  /\ Z.of_nat (length (slept r))
     = match phase r with
       | Sleeping _ => retriesCount r + 1
       | _ => retriesCount r
       end
  /\ signal_aborted r = negb (registered r)
  /\ (phase r = Attempting true -> signal_aborted r = false).

(** A fetch that leaves the resource not playable yet. *)
Definition not_ready (ev : FetchEvent) : Prop :=
  match ev with
  | Fetched code text => code = 202 \/ text = ""
  | FetchFailed => False
  end.

(** No credential key, the bypass flag set. *)
Definition bypass_options : Options :=
  {| opt_apiHost := None; opt_retries := None; opt_videoName := None;
     opt_retryStrategy := None; opt_origin := None;
     opt_testlifyStorageSignedUrl := Some "https://storage/signed";
     opt_skipUploadToAPIVideo := Some true;
     opt_uploadToken := None; opt_accessToken := None;
     opt_refreshToken := None; opt_apiKey := None; opt_videoId := None;
     opt_file := Some movie; opt_chunkSize := None |}.


(* ===================================================================== *)
(** * Properties *)
(* ===================================================================== *)

(* ===================================================================== *)
(** ** Chunk planning *)
(* ===================================================================== *)

(** [Math.ceil] of an exact quotient of integers is the integer ceiling. *)
Lemma count_chunks_div (fileSize chunkSize : Z) :
  0 < chunkSize ->
  count_chunks fileSize chunkSize = - ((- fileSize) / chunkSize).
Proof.
  intros Hc. unfold count_chunks, Math_ceil, Qceiling. f_equal.
  rewrite Zdiv_Qdiv. apply Qfloor_comp.
  rewrite inject_Z_opp. field.
  intros H. unfold Qeq in H. simpl in H. lia.
Qed.

Lemma count_chunks_bounds (fileSize chunkSize : Z) :
  0 < chunkSize ->
  (count_chunks fileSize chunkSize - 1) * chunkSize < fileSize
  /\ fileSize <= count_chunks fileSize chunkSize * chunkSize.
Proof.
  intros Hc. rewrite count_chunks_div by assumption.
  pose proof (Z.div_mod (- fileSize) chunkSize ltac:(lia)) as Hdm.
  pose proof (Z.mod_pos_bound (- fileSize) chunkSize Hc) as Hm.
  nia.
Qed.

Lemma count_chunks_zero (chunkSize : Z) :
  0 < chunkSize -> count_chunks 0 chunkSize = 0.
Proof.
  intros Hc. pose proof (count_chunks_bounds 0 chunkSize Hc). nia.
Qed.

Lemma MIN_CHUNK_SIZE_pos : 0 < MIN_CHUNK_SIZE.
Proof. reflexivity. Qed.

(** C1.  For every file size [fileSize >= 0] and every chunk size within
    [MIN_CHUNK_SIZE, MAX_CHUNK_SIZE], the chunk count is the ceiling of
    [fileSize / chunkSize] (the least [count] with
    [fileSize <= count * chunkSize]), and the ranges
    [firstByte i, lastByte i) of the ordinals [0 .. count - 1] partition
    [0, fileSize) with no gap and no overlap. *)
Theorem chunk_ranges_partition (fileSize chunkSize : Z) :
  0 <= fileSize ->
  MIN_CHUNK_SIZE <= chunkSize <= MAX_CHUNK_SIZE ->
  let count := count_chunks fileSize chunkSize in
  count = (fileSize + chunkSize - 1) / chunkSize
  /\ (count - 1) * chunkSize < fileSize <= count * chunkSize
  /\ partitions fileSize count (firstByte chunkSize) (lastByte fileSize chunkSize).
Proof.
  intros Hf [Hlo Hhi] count.
  pose proof MIN_CHUNK_SIZE_pos as Hmin.
  assert (Hc : 0 < chunkSize) by lia.
  destruct (count_chunks_bounds fileSize chunkSize Hc) as [Hb1 Hb2].
  fold count in Hb1, Hb2.
  assert (Hlast : forall i, lastByte fileSize chunkSize i
                            = Z.min ((i + 1) * chunkSize) fileSize).
  { intros i. unfold lastByte. destruct (Z.gtb_spec ((i + 1) * chunkSize) fileSize); lia. }
  split; [| split; [lia |]].
  - apply Z.div_unique with (r := fileSize + chunkSize - 1 - chunkSize * count); lia.
  - unfold partitions, firstByte.
    split; [| split; [| split]].
    + intros Hpos. rewrite Hlast. split; lia.
    + intros i Hi. rewrite Hlast. nia.
    + intros i Hi0 Hi. rewrite Hlast. nia.
    + intros b Hbnd. exists (b / chunkSize).
      pose proof (Z.div_mod b chunkSize ltac:(lia)) as Hdm.
      pose proof (Z.mod_pos_bound b chunkSize Hc) as Hm.
      assert (Hq : 0 <= b / chunkSize) by (apply Z.div_pos; lia).
      split.
      * rewrite Hlast. split; nia.
      * intros j Hj. rewrite Hlast. intros Hin. nia.
Qed.

Lemma chunk_ranges_partition_witness :
  let fileSize := 12 * 1024 * 1024 in
  let chunkSize := MIN_CHUNK_SIZE in
  let count := count_chunks fileSize chunkSize in
  count = (fileSize + chunkSize - 1) / chunkSize
  /\ (count - 1) * chunkSize < fileSize <= count * chunkSize
  /\ partitions fileSize count (firstByte chunkSize) (lastByte fileSize chunkSize).
Proof.
  apply (chunk_ranges_partition (12 * 1024 * 1024) MIN_CHUNK_SIZE).
  - lia.
  - unfold MIN_CHUNK_SIZE, MAX_CHUNK_SIZE. lia.
Defined.


(* ===================================================================== *)
(** ** The default retry strategy *)
(* ===================================================================== *)

Lemma is_client_error_spec (e : VideoUploadError) :
  is_client_error e = true <-> client_error e.
Proof.
  unfold is_client_error, client_error, truthy_number. split.
  - destruct (status e) as [s |]; [| discriminate].
    intros H. exists s. split; [reflexivity | lia].
  - intros [s [-> Hs]].
    destruct (Z.eqb_spec s 0); simpl; lia.
Qed.

(** The backoff formula stays within the integers. *)
Lemma backoff_delay (n : Z) :
  Math_floor (200 + 2000 * inject_Z n * (inject_Z n + 1))%Q
  = 200 + 2000 * n * (n + 1).
Proof.
  unfold Math_floor.
  rewrite <- (Qfloor_Z (200 + 2000 * n * (n + 1))).
  apply Qfloor_comp.
  rewrite !inject_Z_plus, !inject_Z_mult, inject_Z_plus. reflexivity.
Qed.

(** A null decision of the strategy ends the operation with the error of
    the attempt, and no attempt follows. *)
Lemma null_decision_is_final (strategy : RetryStrategy) (r : Retrier)
    (e : VideoUploadError) (listening : bool) :
  phase r = Attempting listening ->
  strategy (retriesCount r) e = None ->
  step strategy r (FnRejected e) = in_phase r (Settled (Rejected e)).
Proof.
  intros Hp Hs. unfold step. rewrite Hp, Hs.
  destruct (is_aborted e); reflexivity.
Qed.

(** C3.  The default retry strategy returns null whenever the status of
    the error lies in [400, 500), whatever the attempt index [n] and the
    configured maximum; otherwise it returns the delay
    [floor(200 + 2000 * n * (n + 1))] for [n] below the maximum and null for
    [n] at or above it.  In the retrier a null decision settles the
    operation with that error. *)
Theorem default_strategy_decision (maxRetries n : Z) (e : VideoUploadError) :
  (client_error e -> DEFAULT_RETRY_STRATEGY maxRetries n e = None)
  /\ (~ client_error e -> n < maxRetries ->
      DEFAULT_RETRY_STRATEGY maxRetries n e = Some (200 + 2000 * n * (n + 1)))
  /\ (~ client_error e -> maxRetries <= n ->
      DEFAULT_RETRY_STRATEGY maxRetries n e = None)
  /\ (forall r listening,
        phase r = Attempting listening ->
        retriesCount r = n ->
        DEFAULT_RETRY_STRATEGY maxRetries n e = None ->
        phase (step (DEFAULT_RETRY_STRATEGY maxRetries) r (FnRejected e))
        = Settled (Rejected e)).
Proof.
  unfold DEFAULT_RETRY_STRATEGY.
  pose proof (is_client_error_spec e) as Hce.
  repeat split.
  - intros H. apply Hce in H. rewrite H. reflexivity.
  - intros H Hn. destruct (is_client_error e); [exfalso; tauto |].
    destruct (Z.leb_spec maxRetries n); [lia |]. cbv [orb].
    rewrite backoff_delay. reflexivity.
  - intros H Hn. destruct (is_client_error e); [reflexivity |].
    destruct (Z.leb_spec maxRetries n); [reflexivity | lia].
  - intros r listening Hp Hn Hnull.
    rewrite (null_decision_is_final _ r e listening Hp).
    + reflexivity.
    + rewrite Hn. exact Hnull.
Qed.

Lemma default_strategy_decision_witness :
  DEFAULT_RETRY_STRATEGY 6 2 server_error = Some 12200.
Proof.
  apply (proj1 (proj2 (default_strategy_decision 6 2 server_error))).
  - intros [s [Hs Hr]]. inversion Hs; subst. lia.
  - lia.
Defined.

(* ===================================================================== *)
(** ** Construction *)
(* ===================================================================== *)

Lemma origin_headers_succeeded (options : Options) (h : gmap string string) :
  succeeded (origin_headers options h) = origin_valid options.
Proof.
  unfold origin_valid, origin_headers.
  destruct (opt_origin options) as [o |]; [| reflexivity].
  destruct (application o) as [app |]; simpl.
  - destruct (validateOrigin "application" app); simpl; [| reflexivity].
    destruct (sdk o) as [s |]; [| reflexivity].
    destruct (validateOrigin "sdk" s); reflexivity.
  - destruct (sdk o) as [s |]; [| reflexivity].
    destruct (validateOrigin "sdk" s); reflexivity.
Qed.

(** The base constructor succeeds exactly when the credential chain and
    the origin block do. *)
Lemma AbstractUploader_constructor_succeeded (pkg : string) (options : Options) :
  succeeded (AbstractUploader_constructor pkg options)
  = succeeded (credentials (host_of options) (skip_of options) options)
    && origin_valid options.
Proof.
  unfold AbstractUploader_constructor. fold (host_of options) (skip_of options).
  destruct (credentials (host_of options) (skip_of options) options)
    as [[[[endpoint id] token] h0] | err]; simpl; [| reflexivity].
  match goal with
  | |- context [origin_headers options ?h] =>
      rewrite <- (origin_headers_succeeded options h);
      destruct (origin_headers options h); reflexivity
  end.
Qed.

(** When the credential chain throws, the constructor throws that error. *)
Lemma AbstractUploader_constructor_throws (pkg : string) (options : Options)
    (err : JsError) :
  credentials (host_of options) (skip_of options) options = Throw err ->
  AbstractUploader_constructor pkg options = Throw err.
Proof.
  intros H. unfold AbstractUploader_constructor.
  fold (host_of options) (skip_of options). rewrite H. reflexivity.
Qed.

(** The [retries] option has no part in what the constructor accepts. *)
Lemma retries_never_rejected (pkg : string) (options : Options) (n : option Z) :
  succeeded (AbstractUploader_constructor pkg (with_retries options n))
  = succeeded (AbstractUploader_constructor pkg options).
Proof.
  rewrite !AbstractUploader_constructor_succeeded. reflexivity.
Qed.

(** What the constructor stores when it succeeds. *)
Lemma AbstractUploader_constructor_retries (pkg : string) (options : Options)
    (this : AbstractUploader) :
  AbstractUploader_constructor pkg options = Ok this ->
  retries this = or_else truthy_number (opt_retries options) DEFAULT_RETRIES
  /\ (opt_retryStrategy options = None ->
      retryStrategy this = DEFAULT_RETRY_STRATEGY (retries this)).
Proof.
  unfold AbstractUploader_constructor.
  destruct (credentials _ _ options) as [[[[endpoint id] token] h0] | err];
    simpl; [| discriminate].
  destruct (origin_headers options _) as [h2 | err]; simpl; [| discriminate].
  intros H. inversion H; subst; clear H. simpl.
  split; [reflexivity |]. intros ->. reflexivity.
Qed.

(** C10.  With [retries: 0], or any other falsy [retries], the constructor
    accepts the options as it does without the member, and the maximum
    attempt count it stores, the one the default retry strategy is built
    with, is the default 6. *)
Theorem falsy_retries_is_default (pkg : string) (options : Options)
    (n : option Z) :
  truthy_opt truthy_number n = false ->
  succeeded (AbstractUploader_constructor pkg (with_retries options n))
  = succeeded (AbstractUploader_constructor pkg options)
  /\ forall this,
       AbstractUploader_constructor pkg (with_retries options n) = Ok this ->
       retries this = 6
       /\ (opt_retryStrategy options = None ->
           retryStrategy this = DEFAULT_RETRY_STRATEGY 6).
Proof.
  intros Hn. split; [apply retries_never_rejected |].
  intros this Hok.
  destruct (AbstractUploader_constructor_retries _ _ _ Hok) as [Hr Hs].
  assert (H6 : retries this = 6).
  { rewrite Hr. simpl. destruct n as [r |]; simpl in *; [| reflexivity].
    rewrite Hn. reflexivity. }
  split; [exact H6 |]. rewrite <- H6. exact Hs.
Qed.

Lemma falsy_retries_is_default_witness :
  exists this,
    AbstractUploader_constructor "1.0.0" (with_retries token_options (Some 0))
    = Ok this
    /\ retries this = 6
    /\ retryStrategy this = DEFAULT_RETRY_STRATEGY 6.
Proof.
  destruct (falsy_retries_is_default "1.0.0" token_options (Some 0) eq_refl)
    as [_ H].
  eexists. split; [reflexivity |].
  destruct (H _ eq_refl) as [H6 Hs].
  split; [exact H6 | exact (Hs eq_refl)].
Defined.

(** The derived class adds the file and chunk-size checks to those of the
    base constructor. *)
Lemma VideoUploader_constructor_unfold (pkg : string) (options : Options)
    (super : AbstractUploader) :
  AbstractUploader_constructor pkg options = Ok super ->
  VideoUploader_constructor pkg options
  = match opt_file options with
    | None => Throw (Error "'file' is missing")
    | Some f =>
        if truthy_opt truthy_number (opt_chunkSize options)
           && truthy_opt (fun c => (c <? MIN_CHUNK_SIZE) || (c >? MAX_CHUNK_SIZE))
                         (opt_chunkSize options)
        then Throw invalid_chunk_size
        else
          let cs := or_else truthy_number (opt_chunkSize options) DEFAULT_CHUNK_SIZE in
          Ok {| base := super; file := f; chunkSize := cs;
                chunksCount := count_chunks (size f) cs;
                fileSize := size f; fileName := file_name f |}
    end.
Proof.
  intros H. unfold VideoUploader_constructor. rewrite H. reflexivity.
Qed.

(** Whatever the options, a constructed uploader has a chunk size within
    the bounds, and its fields are those of the file. *)
Lemma VideoUploader_constructor_fields (pkg : string) (options : Options)
    (this : VideoUploader) :
  VideoUploader_constructor pkg options = Ok this ->
  MIN_CHUNK_SIZE <= chunkSize this <= MAX_CHUNK_SIZE
  /\ opt_file options = Some (file this)
  /\ fileSize this = size (file this)
  /\ chunksCount this = count_chunks (fileSize this) (chunkSize this).
Proof.
  unfold VideoUploader_constructor.
  destruct (AbstractUploader_constructor pkg options) as [super | err];
    simpl; [| discriminate].
  destruct (opt_file options) as [f |]; [| discriminate].
  destruct (opt_chunkSize options) as [c |]; simpl.
  - unfold truthy_number.
    destruct (Z.eqb_spec c 0) as [-> | Hc]; simpl.
    + intros H. inversion H; subst; simpl.
      unfold MIN_CHUNK_SIZE, DEFAULT_CHUNK_SIZE, MAX_CHUNK_SIZE. repeat split; lia.
    + destruct (Z.ltb_spec c MIN_CHUNK_SIZE) as [Hlo | Hlo]; simpl; [discriminate |].
      destruct (Z.gtb_spec c MAX_CHUNK_SIZE) as [Hhi | Hhi]; simpl; [discriminate |].
      intros Hok. inversion Hok; subst; simpl. repeat split; lia.
  - intros H. inversion H; subst; simpl.
    unfold MIN_CHUNK_SIZE, DEFAULT_CHUNK_SIZE, MAX_CHUNK_SIZE. repeat split; lia.
Qed.

(** C8, as the code has it.  Once the base constructor has accepted the
    options and a file is given: a supplied chunk size other than 0 that
    lies outside [5 MiB, 128 MiB] makes the constructor throw; a supplied
    chunk size within the bounds, 5 MiB and 128 MiB included, is accepted
    and used; with no chunk size, or with the chunk size 0, the default of
    50 MiB is used. *)
Theorem chunk_size_validation (pkg : string) (options : Options)
    (super : AbstractUploader) (f : File) :
  AbstractUploader_constructor pkg options = Ok super ->
  opt_file options = Some f ->
  (forall c, opt_chunkSize options = Some c -> c <> 0 ->
     c < 5 * 1024 * 1024 \/ 128 * 1024 * 1024 < c ->
     VideoUploader_constructor pkg options = Throw invalid_chunk_size)
  /\ (forall c, opt_chunkSize options = Some c ->
        5 * 1024 * 1024 <= c <= 128 * 1024 * 1024 ->
        exists this, VideoUploader_constructor pkg options = Ok this
                     /\ chunkSize this = c)
  /\ (opt_chunkSize options = None \/ opt_chunkSize options = Some 0 ->
        exists this, VideoUploader_constructor pkg options = Ok this
                     /\ chunkSize this = 50 * 1024 * 1024).
Proof.
  intros Hsuper Hfile.
  rewrite (VideoUploader_constructor_unfold _ _ _ Hsuper), Hfile.
  unfold MIN_CHUNK_SIZE, MAX_CHUNK_SIZE, DEFAULT_CHUNK_SIZE, truthy_number.
  repeat split.
  - intros c -> Hc Hout. simpl.
    destruct (Z.eqb_spec c 0); [contradiction |]. simpl.
    destruct (Z.ltb_spec c (1024 * 1024 * 5)); simpl; [reflexivity |].
    destruct (Z.gtb_spec c (1024 * 1024 * 128)); simpl; [reflexivity | lia].
  - intros c -> Hin. simpl.
    destruct (Z.eqb_spec c 0); [lia |]. simpl.
    destruct (Z.ltb_spec c (1024 * 1024 * 5)); simpl; [lia |].
    destruct (Z.gtb_spec c (1024 * 1024 * 128)); simpl; [lia |].
    eexists. split; reflexivity.
  - intros [-> | ->]; simpl; eexists; split; reflexivity.
Qed.

Lemma chunk_size_validation_witness :
  exists this,
    VideoUploader_constructor "1.0.0"
      (options_of (Some "tok") None None None None (Some movie)
         (Some (128 * 1024 * 1024)) None) = Ok this
    /\ chunkSize this = 128 * 1024 * 1024.
Proof.
  edestruct (chunk_size_validation "1.0.0"
               (options_of (Some "tok") None None None None (Some movie)
                  (Some (128 * 1024 * 1024)) None)) as [_ [Hin _]].
  - reflexivity.
  - reflexivity.
  - apply (Hin (128 * 1024 * 1024)); [reflexivity | lia].
Defined.

(** C8 as stated fails for the chunk size 0: it is supplied, it lies
    outside [5 MiB, 128 MiB], and the constructor accepts it and plans with
    the default chunk size. *)
Lemma zero_chunk_size_accepted :
  opt_chunkSize zero_chunk_options = Some 0
  /\ 0 < MIN_CHUNK_SIZE
  /\ exists this,
       VideoUploader_constructor "1.0.0" zero_chunk_options = Ok this
       /\ chunkSize this = DEFAULT_CHUNK_SIZE.
Proof.
  split; [reflexivity |]. split; [reflexivity |].
  eexists. split; reflexivity.
Qed.

(** What a successful base constructor took from the credential chain. *)
Lemma AbstractUploader_constructor_mode (pkg : string) (options : Options)
    (this : AbstractUploader) :
  AbstractUploader_constructor pkg options = Ok this ->
  exists h0,
    credentials (host_of options) (skip_of options) options
    = Ok (uploadEndpoint this, this_videoId this, refreshToken this, h0).
Proof.
  unfold AbstractUploader_constructor. fold (host_of options) (skip_of options).
  destruct (credentials (host_of options) (skip_of options) options)
    as [[[[endpoint id] token] h0] | err]; simpl; [| discriminate].
  destruct (origin_headers options _) as [h2 | err]; simpl; [| discriminate].
  intros H. inversion H; subst; simpl. exists h0. reflexivity.
Qed.

(** C7, as the code has it.  With a valid (or no) origin block, the
    constructor settles the credential mode by the first key present among
    [uploadToken], [accessToken] and [apiKey], and looks at no other
    credential key:
    - with [uploadToken] present it succeeds, in upload-token mode;
    - otherwise, with [accessToken] or [apiKey] present, it succeeds when
      [videoId] is non-empty and throws "'videoId' is missing" when not;
    - with none of the three keys it throws, unless the bypass flag
      [skipUploadToAPIVideo] is true. *)
Theorem credential_chain (pkg : string) (options : Options) :
  origin_valid options = true ->
  (forall uploadToken, opt_uploadToken options = Some uploadToken ->
     exists this,
       AbstractUploader_constructor pkg options = Ok this
       /\ uploadEndpoint this
          = "https://" +:+ host_of options +:+ "/upload?token=" +:+ uploadToken
       /\ refreshToken this = None)
  /\ (opt_uploadToken options = None ->
      is_Some (opt_accessToken options) \/ is_Some (opt_apiKey options) ->
      if truthy_opt truthy_string (opt_videoId options)
      then succeeded (AbstractUploader_constructor pkg options) = true
      else AbstractUploader_constructor pkg options
           = Throw (Error "'videoId' is missing"))
  /\ (opt_uploadToken options = None ->
      opt_accessToken options = None ->
      opt_apiKey options = None ->
      if skip_of options
      then succeeded (AbstractUploader_constructor pkg options) = true
      else AbstractUploader_constructor pkg options
           = Throw (Error
               "You must provide either an accessToken, an uploadToken or an API key")).
Proof.
  intros Horigin.
  pose proof (AbstractUploader_constructor_succeeded pkg options) as Hs.
  rewrite Horigin, andb_true_r in Hs.
  repeat split.
  - intros uploadToken Htoken.
    assert (Hc : credentials (host_of options) (skip_of options) options
                 = Ok ("https://" +:+ host_of options +:+ "/upload?token=" +:+ uploadToken,
                       (if truthy_opt truthy_string (opt_videoId options)
                        then opt_videoId options else None), None, ∅)).
    { unfold credentials. rewrite Htoken. reflexivity. }
    rewrite Hc in Hs. simpl in Hs.
    destruct (AbstractUploader_constructor pkg options) as [this | err] eqn:Hk;
      [| discriminate].
    exists this. split; [reflexivity |].
    destruct (AbstractUploader_constructor_mode _ _ _ Hk) as [h0 Hm].
    rewrite Hc in Hm. inversion Hm. split; reflexivity.
  - intros Htoken Hkey.
    destruct (truthy_opt truthy_string (opt_videoId options)) eqn:Hid.
    + rewrite Hs. unfold credentials. rewrite Htoken.
      destruct (opt_videoId options) as [id |]; [| discriminate]. simpl in Hid.
      rewrite Hid.
      destruct (opt_accessToken options); [reflexivity |].
      destruct (opt_apiKey options); [reflexivity |].
      destruct Hkey as [[x Hx] | [x Hx]]; discriminate.
    + apply AbstractUploader_constructor_throws.
      unfold credentials. rewrite Htoken.
      destruct (opt_videoId options) as [id |]; simpl in Hid; [rewrite Hid |];
        (destruct (opt_accessToken options); [reflexivity |]);
        (destruct (opt_apiKey options); [reflexivity |]);
        destruct Hkey as [[x Hx] | [x Hx]]; discriminate.
  - intros Htoken Haccess Hkey.
    destruct (skip_of options) eqn:Hskip.
    + rewrite Hs. unfold credentials. rewrite Htoken, Haccess, Hkey.
      reflexivity.
    + apply AbstractUploader_constructor_throws.
      unfold credentials. rewrite Htoken, Haccess, Hkey, Hskip. reflexivity.
Qed.

Lemma credential_chain_witness :
  exists this,
    AbstractUploader_constructor "1.0.0" two_shapes_options = Ok this
    /\ uploadEndpoint this = "https://ws.api.video/upload?token=tok"
    /\ refreshToken this = None.
Proof.
  exact (proj1 (credential_chain "1.0.0" two_shapes_options eq_refl)
           "tok" eq_refl).
Defined.

(** C7 as stated fails when two credential shapes are supplied at once: an
    upload token together with an access token and its video id is
    accepted, also by the derived constructor, without the bypass flag. *)
Lemma two_shapes_accepted :
  opt_uploadToken two_shapes_options = Some "tok"
  /\ opt_accessToken two_shapes_options = Some "acc0"
  /\ opt_videoId two_shapes_options = Some "vi1"
  /\ opt_skipUploadToAPIVideo two_shapes_options = None
  /\ succeeded (AbstractUploader_constructor "1.0.0" two_shapes_options) = true
  /\ succeeded (VideoUploader_constructor "1.0.0" two_shapes_options) = true.
Proof. repeat split; reflexivity. Qed.

(* ===================================================================== *)
(** ** Credential refresh on a 401 *)
(* ===================================================================== *)

Lemma upload_calls_sent_before (run : XhrRun) (this : AbstractUploader)
    (params : HXRRequestParams) :
  upload_calls (sent_before [upload_request this params; refresh_request this] run)
  = S (upload_calls run).
Proof. reflexivity. Qed.

Lemma refresh_calls_sent_before (run : XhrRun) (this : AbstractUploader)
    (params : HXRRequestParams) :
  refresh_calls (sent_before [upload_request this params; refresh_request this] run)
  = S (refresh_calls run).
Proof. reflexivity. Qed.








Example access_uploader_constructed :
  AbstractUploader_constructor "1.0.0" access_options = Ok access_uploader.
Proof. reflexivity. Qed.



(* ===================================================================== *)
(** ** Cancellation of a retried operation *)
(* ===================================================================== *)

(** A settled operation stays as it is, except for the bookkeeping of a
    first [cancel()]; it makes no further call. *)
Lemma settled_is_final (strategy : RetryStrategy) (r : Retrier)
    (s : Settlement VideoUploadResponse) (ev : RetrierEvent) :
  phase r = Settled s ->
  phase (step strategy r ev) = Settled s
  /\ fn_calls (step strategy r ev) = fn_calls r.
Proof.
  intros Hp. unfold step. rewrite Hp.
  destruct ev; try (split; [exact Hp | reflexivity]).
  destruct (registered r); split; simpl; try exact Hp; reflexivity.
Qed.

Lemma run_settled (strategy : RetryStrategy) (events : list RetrierEvent) :
  forall (r : Retrier) (s : Settlement VideoUploadResponse),
    phase r = Settled s ->
    phase (run strategy r events) = Settled s
    /\ fn_calls (run strategy r events) = fn_calls r.
Proof.
  induction events as [| ev events IH]; intros r s Hp; simpl.
  - split; [exact Hp | reflexivity].
  - destruct (settled_is_final strategy r s ev Hp) as [Hp' Hc].
    destruct (IH _ _ Hp') as [H1 H2]. split; [exact H1 | congruence].
Qed.

(** The path that works: [cancel()] while the request of an attempt is
    pending settles the operation as ABORTED, and whatever happens later no
    transport call follows. *)
Lemma cancel_in_flight (strategy : RetryStrategy) (r : Retrier)
    (events : list RetrierEvent) :
  phase r = Attempting true ->
  registered r = true ->
  let r' := run strategy (step strategy r Cancel) events in
  phase r' = Settled (Rejected (transport_failure "ABORTED"))
  /\ fn_calls r' = fn_calls r.
Proof.
  intros Hp Hreg.
  assert (Hs : step strategy r Cancel
               = in_phase (aborted_and_deleted r)
                   (Settled (Rejected (transport_failure "ABORTED")))).
  { unfold step. rewrite Hp, Hreg. reflexivity. }
  cbv zeta. rewrite Hs.
  destruct (run_settled strategy events
              (in_phase (aborted_and_deleted r)
                 (Settled (Rejected (transport_failure "ABORTED"))))
              _ eq_refl) as [H1 H2].
  split; [exact H1 | exact H2].
Qed.

(** C5, on the code.  [cancel()] while the retrier waits in a backoff
    delay only marks the signal as aborted and deletes the registry entry:
    the operation keeps sleeping and is not settled; when the timer fires
    the next attempt makes its transport call, with a listener that can no
    longer fire; and the operation then settles as that attempt does, with
    its response when it succeeds. *)
Theorem cancel_during_backoff (strategy : RetryStrategy) (r : Retrier)
    (retryDelay : Z) :
  phase r = Sleeping retryDelay ->
  registered r = true ->
  let cancelled := step strategy r Cancel in
  let retried := step strategy cancelled TimerFired in
  phase cancelled = Sleeping retryDelay
  /\ signal_aborted cancelled = true
  /\ phase retried = Attempting false
  /\ transport_calls retried = S (transport_calls r)
  /\ (forall res,
        phase (step strategy retried (FnResolved res)) = Settled (Resolved res))
  /\ phase (step strategy retried Cancel) = Attempting false.
Proof.
  intros Hp Hreg.
  assert (Hc : step strategy r Cancel = aborted_and_deleted r).
  { unfold step. rewrite Hp, Hreg. reflexivity. }
  cbv zeta. rewrite Hc.
  assert (Ht : step strategy (aborted_and_deleted r) TimerFired
               = call_fn (woken (aborted_and_deleted r))).
  { unfold step. simpl. rewrite Hp. reflexivity. }
  rewrite Ht. repeat split.
  - exact Hp.
  - unfold transport_calls. simpl. rewrite length_app. simpl. lia.
Qed.

Lemma cancel_during_backoff_witness :
  let events := [FnRejected server_error; Cancel; TimerFired;
                 FnResolved sample_response] in
  let r := run (DEFAULT_RETRY_STRATEGY 6) withRetrier events in
  phase r = Settled (Resolved sample_response)
  /\ fn_calls r = [false; true]
  /\ slept r = [200].
Proof.
  pose proof (cancel_during_backoff (DEFAULT_RETRY_STRATEGY 6)
                (step (DEFAULT_RETRY_STRATEGY 6) withRetrier
                   (FnRejected server_error))
                200 eq_refl eq_refl) as H.
  destruct H as (_ & _ & _ & _ & H & _).
  split; [exact (H sample_response) |].
  split; reflexivity.
Defined.

(* ===================================================================== *)
(** ** The chunk loop of upload *)
(* ===================================================================== *)

(** One turn of the loop: the value that [await] hands back is the
    operation object itself, whose [videoId] member is undefined. *)
Lemma upload_loop_turn (todo : nat) (this : VideoUploader) (i : Z)
    (res : JsValue) (sent : list Request) (ops : list CancelableOperation) :
  upload_loop (S todo) this i res sent ops
  = upload_loop todo (with_videoId this None) (i + 1)
      (JsOperation (fst (uploadCurrentChunk this i)))
      (sent ++ [snd (uploadCurrentChunk this i)])
      (ops ++ [fst (uploadCurrentChunk this i)]).
Proof. reflexivity. Qed.

Lemma uploadCurrentChunk_body (this : VideoUploader) (i : Z) :
  body_videoId (snd (uploadCurrentChunk this i))
  = (if truthy_opt truthy_string (this_videoId (base this))
     then this_videoId (base this) else None)
  /\ result (fst (uploadCurrentChunk this i)) = withRetrier.
Proof. split; reflexivity. Qed.

(** The requests and operations the loop adds, and the state it leaves. *)
Lemma upload_loop_sent (todo : nat) :
  forall (this : VideoUploader) (i : Z) (res : JsValue) (sent : list Request)
         (ops : list CancelableOperation),
    let run := upload_loop todo this i res sent ops in
    exists new new_ops,
      up_sent run = (sent ++ new)%list
      /\ up_operations run = (ops ++ new_ops)%list
      /\ length new = todo
      /\ (forall rq, In rq (tl new) -> body_videoId rq = None)
      /\ (this_videoId (base this) = None ->
          forall rq, In rq new -> body_videoId rq = None)
      /\ Forall (fun op => result op = withRetrier) new_ops
      /\ (todo <> O -> this_videoId (base (up_this run)) = None)
      /\ (todo = O -> up_promise run = Resolved res)
      /\ (todo <> O -> exists op, up_promise run = Resolved (JsOperation op)).
Proof.
  induction todo as [| todo IH]; intros this i res sent ops.
  - exists [], []. simpl. rewrite !app_nil_r.
    repeat split; try tauto; try constructor.
  - cbv zeta. rewrite upload_loop_turn.
    destruct (IH (with_videoId this None) (i + 1)
                (JsOperation (fst (uploadCurrentChunk this i)))
                (sent ++ [snd (uploadCurrentChunk this i)])%list
                (ops ++ [fst (uploadCurrentChunk this i)])%list)
      as (new & new_ops & Hs & Ho & Hl & _ & Hnone & Hops & Hid & Hp0 & HpS).
    exists (snd (uploadCurrentChunk this i) :: new),
           (fst (uploadCurrentChunk this i) :: new_ops).
    rewrite Hs, Ho, <- !app_assoc.
    split; [reflexivity |]. split; [reflexivity |].
    split; [cbn [length]; lia |].
    split; [exact (Hnone eq_refl) |].
    split.
    { intros Hthis rq [<- | Hin].
      - rewrite (proj1 (uploadCurrentChunk_body this i)), Hthis. reflexivity.
      - exact (Hnone eq_refl rq Hin). }
    split; [constructor; [reflexivity | exact Hops] |].
    split.
    { intros _. destruct todo as [| todo'].
      - reflexivity.
      - apply Hid. discriminate. }
    split; [discriminate |].
    intros _. destruct todo as [| todo'].
    + eexists. apply Hp0. reflexivity.
    + apply HpS. discriminate.
Qed.

(** C6, on the code.  [upload] sends one request per planned chunk without
    waiting for any answer: when its promise resolves every operation is
    still in its first attempt.  What it assigns to [this.videoId] after a
    chunk is the [videoId] member of the operation object, which is
    undefined: every request after the first is built without a [videoId]
    field, whatever the server answers, and the stored id ends up
    undefined. *)
Theorem resource_id_not_threaded (this : VideoUploader) :
  let run := upload this in
  length (up_sent run) = Z.to_nat (chunksCount this)
  /\ Forall (fun op => result op = withRetrier) (up_operations run)
  /\ (forall k rq, nth_error (up_sent run) (S k) = Some rq ->
        body_videoId rq = None)
  /\ (0 < chunksCount this -> this_videoId (base (up_this run)) = None).
Proof.
  unfold upload.
  destruct (upload_loop_sent (Z.to_nat (chunksCount this)) this 0 JsUndefined [] [])
    as (new & new_ops & Hs & Ho & Hl & Htl & _ & Hops & Hid & _).
  cbv zeta. rewrite Hs, Ho. simpl.
  split; [exact Hl |]. split; [exact Hops |]. split.
  - intros k rq Hk. apply Htl.
    destruct new as [| first rest]; [discriminate |]. simpl in *.
    eapply nth_error_In. exact Hk.
  - intros Hpos. apply Hid. lia.
Qed.

Lemma resource_id_not_threaded_witness :
  exists this,
    VideoUploader_constructor "1.0.0" token_options = Ok this
    /\ chunksCount this = 3
    /\ map body_videoId (up_sent (upload this)) = [None; None; None]
    /\ map body_bytes (up_sent (upload this)) = [5242880; 5242880; 2097152]
    /\ this_videoId (base (up_this (upload this))) = None.
Proof.
  eexists. split; [reflexivity |].
  split; [reflexivity |]. split; [reflexivity |]. split; [reflexivity |].
  refine (proj2 (proj2 (proj2 (resource_id_not_threaded _))) _).
  reflexivity.
Defined.

(** An id the caller supplies in upload-token mode is attached to the
    first request only. *)
Example supplied_id_first_chunk_only :
  exists this,
    VideoUploader_constructor "1.0.0"
      (options_of (Some "tok") None None None (Some "vi0") (Some movie)
         (Some MIN_CHUNK_SIZE) None) = Ok this
    /\ map body_videoId (up_sent (upload this)) = [Some "vi0"; None; None].
Proof. eexists. split; reflexivity. Qed.

(** C2, on the code.  For a file of size 0 the constructor plans zero
    chunks; [upload] creates no operation, sends no request, and the promise
    it returns resolves to [undefined]. *)
Theorem empty_file_sends_nothing (pkg : string) (options : Options)
    (this : VideoUploader) :
  VideoUploader_constructor pkg options = Ok this ->
  fileSize this = 0 ->
  chunksCount this = 0
  /\ up_sent (upload this) = []
  /\ up_operations (upload this) = []
  /\ upload_returns this = Promise (Resolved JsUndefined).
Proof.
  intros Hok Hsize.
  destruct (VideoUploader_constructor_fields _ _ _ Hok) as (Hb & _ & _ & Hcount).
  pose proof MIN_CHUNK_SIZE_pos as Hmin.
  assert (H0 : chunksCount this = 0).
  { rewrite Hcount, Hsize. apply count_chunks_zero. lia. }
  unfold upload_returns, upload. rewrite H0. repeat split.
Qed.

Lemma empty_file_sends_nothing_witness :
  exists this,
    VideoUploader_constructor "1.0.0" empty_file_options = Ok this
    /\ chunksCount this = 0
    /\ up_sent (upload this) = []
    /\ upload_returns this = Promise (Resolved JsUndefined).
Proof.
  eexists. split; [reflexivity |].
  edestruct (empty_file_sends_nothing "1.0.0" empty_file_options)
    as (H1 & H2 & _ & H4).
  - reflexivity.
  - reflexivity.
  - split; [exact H1 |]. split; [exact H2 | exact H4].
Defined.





(* ===================================================================== *)
(** ** More on construction *)
(* ===================================================================== *)

Lemma length_between_spec {A} (lo hi : nat) (l : list A) :
  length_between lo hi l = true <-> (lo <= length l <= hi)%nat.
Proof.
  unfold length_between. rewrite andb_true_iff, !Nat.leb_le. reflexivity.
Qed.

Lemma forallb_Forall_true {A} (f : A -> bool) (l : list A) :
  forallb f l = true <-> Forall (fun x => f x = true) l.
Proof.
  induction l as [| x l IH]; simpl.
  - split; [constructor | reflexivity].
  - rewrite andb_true_iff, IH. split.
    + intros [Hx Hl]. constructor; assumption.
    + intros H. inversion H; subst. split; assumption.
Qed.

Lemma name_pattern_nonempty (s : string) :
  name_pattern s = true -> truthy_string s = true.
Proof. destruct s; [discriminate | reflexivity]. Qed.

Lemma version_pattern_nonempty (s : string) :
  version_pattern s = true -> truthy_string s = true.
Proof. destruct s; [discriminate | reflexivity]. Qed.

(** X1.  [validateOrigin] accepts an origin exactly when its name matches
    the name pattern and its version matches the version pattern; the two
    emptiness checks in front reject nothing that the patterns accept. *)
Theorem validateOrigin_accepts (type : string) (origin : Origin) :
  validateOrigin type origin = Ok tt
  <-> name_pattern (name origin) = true /\ version_pattern (version origin) = true.
Proof.
  unfold validateOrigin. split.
  - destruct (truthy_string (name origin)); simpl; [| discriminate].
    destruct (truthy_string (version origin)); simpl; [| discriminate].
    destruct (name_pattern (name origin)); simpl; [| discriminate].
    destruct (version_pattern (version origin)); simpl; [| discriminate].
    split; reflexivity.
  - intros [Hn Hv].
    rewrite (name_pattern_nonempty _ Hn), (version_pattern_nonempty _ Hv), Hn, Hv.
    reflexivity.
Qed.

Lemma split_dots_nonempty (l cur : list ascii) : split_dots l cur <> [].
Proof.
  revert cur. induction l as [| c l IH]; intros cur; simpl.
  - discriminate.
  - destruct (Ascii.eqb c "."); [discriminate | apply IH].
Qed.

Lemma join_dots_cons (g : list ascii) (groups : list (list ascii)) :
  groups <> [] ->
  join_dots (g :: groups) = (g ++ "."%char :: join_dots groups)%list.
Proof. destruct groups; [contradiction | reflexivity]. Qed.

(** Splitting at the dots loses nothing. *)
Lemma join_split_dots (l : list ascii) :
  forall cur, join_dots (split_dots l cur) = (rev cur ++ l)%list.
Proof.
  induction l as [| c l IH]; intros cur; simpl.
  - rewrite app_nil_r. reflexivity.
  - destruct (Ascii.eqb_spec c ".") as [-> | Hc].
    + rewrite join_dots_cons by apply split_dots_nonempty.
      rewrite IH. reflexivity.
    + rewrite IH. simpl. rewrite <- app_assoc. reflexivity.
Qed.

Lemma split_dots_digits (g : list ascii) :
  Forall (fun c => is_digit c = true) g ->
  forall l cur, split_dots (g ++ l) cur = split_dots l (rev g ++ cur).
Proof.
  induction 1 as [| c g Hc Hg IH]; intros l cur; simpl.
  - reflexivity.
  - destruct (Ascii.eqb_spec c ".") as [-> | Hne]; [discriminate |].
    rewrite IH, <- app_assoc. reflexivity.
Qed.

Lemma split_join_dots (groups : list (list ascii)) :
  groups <> [] ->
  Forall (Forall (fun c => is_digit c = true)) groups ->
  split_dots (join_dots groups) [] = groups.
Proof.
  induction groups as [| g groups IH]; intros Hne Hall; [contradiction |].
  inversion Hall as [| ? ? Hg Hrest]; subst.
  destruct groups as [| g' groups'].
  - simpl. rewrite <- (app_nil_r g) at 1.
    rewrite (split_dots_digits g Hg). simpl.
    rewrite app_nil_r, rev_involutive. reflexivity.
  - rewrite join_dots_cons by discriminate.
    rewrite (split_dots_digits g Hg). simpl.
    rewrite app_nil_r, rev_involutive. f_equal.
    apply IH; [discriminate | exact Hrest].
Qed.

(** X2.  The version pattern accepts exactly the strings made of one to
    three groups of one to three decimal digits, the groups separated by
    single dots. *)
Theorem version_pattern_accepts (s : string) :
  version_pattern s = true
  <-> exists groups,
        list_ascii_of_string s = join_dots groups
        /\ (1 <= length groups <= 3)%nat
        /\ Forall digit_group groups.
Proof.
  unfold version_pattern. rewrite andb_true_iff, length_between_spec,
    forallb_Forall_true.
  split.
  - intros [Hlen Hall]. exists (split_dots (list_ascii_of_string s) []).
    split; [rewrite join_split_dots; reflexivity |].
    split; [exact Hlen |].
    eapply Forall_impl; [exact Hall |]. intros g Hg. simpl in Hg.
    apply andb_true_iff in Hg. destruct Hg as [H1 H2].
    split; [apply length_between_spec, H1 | apply forallb_Forall_true, H2].
  - intros (groups & Hs & Hlen & Hall).
    assert (Hsplit : split_dots (list_ascii_of_string s) [] = groups).
    { rewrite Hs. apply split_join_dots.
      - destruct groups; [simpl in Hlen; lia | discriminate].
      - eapply Forall_impl; [exact Hall |]. intros g [_ Hg]. exact Hg. }
    rewrite Hsplit. split; [exact Hlen |].
    eapply Forall_impl; [exact Hall |]. intros g [H1 H2]. simpl.
    apply andb_true_iff.
    split; [apply length_between_spec, H1 | apply forallb_Forall_true, H2].
Qed.

Lemma validateOrigin_accepts_witness :
  validateOrigin "sdk" {| name := "my-sdk_2"; version := "1.20.300" |} = Ok tt.
Proof.
  apply (proj2 (validateOrigin_accepts "sdk" _)). split; reflexivity.
Defined.

Lemma version_pattern_accepts_witness : version_pattern "1.20.300" = true.
Proof.
  apply (proj2 (version_pattern_accepts "1.20.300")).
  exists [["1"]; ["2"; "0"]; ["3"; "0"; "0"]]%char.
  split; [reflexivity |]. split; [simpl; lia |].
  repeat constructor.
Defined.

(** The origin block only ever writes the two origin headers. *)
Lemma origin_headers_other (options : Options) (h h' : gmap string string)
    (k : string) :
  origin_headers options h = Ok h' ->
  k <> "AV-Origin-App" -> k <> "AV-Origin-Sdk" ->
  h' !! k = h !! k.
Proof.
  unfold origin_headers. intros H Happ Hsdk.
  destruct (opt_origin options) as [o |]; [| inversion H; reflexivity].
  destruct (application o) as [app |]; simpl in H.
  - destruct (validateOrigin "application" app); simpl in H; [| discriminate].
    destruct (sdk o) as [s |].
    + destruct (validateOrigin "sdk" s); simpl in H; [| discriminate].
      inversion H; subst. rewrite !lookup_insert_ne by congruence. reflexivity.
    + inversion H; subst. rewrite lookup_insert_ne by congruence. reflexivity.
  - destruct (sdk o) as [s |].
    + destruct (validateOrigin "sdk" s); simpl in H; [| discriminate].
      inversion H; subst. rewrite lookup_insert_ne by congruence. reflexivity.
    + inversion H; subst. reflexivity.
Qed.

(** The headers of a constructed uploader, in terms of the credential
    chain. *)
Lemma AbstractUploader_constructor_headers (pkg : string) (options : Options)
    (this : AbstractUploader) :
  AbstractUploader_constructor pkg options = Ok this ->
  exists endpoint id token h0,
    credentials (host_of options) (skip_of options) options
    = Ok (endpoint, id, token, h0)
    /\ origin_headers options
         (<["AV-Origin-Client" := "typescript-uploader:" +:+ pkg]> h0)
       = Ok (headers this).
Proof.
  unfold AbstractUploader_constructor. fold (host_of options) (skip_of options).
  destruct (credentials (host_of options) (skip_of options) options)
    as [[[[endpoint id] token] h0] | err]; simpl; [| discriminate].
  destruct (origin_headers options _) as [h2 | err] eqn:Ho; simpl; [| discriminate].
  intros H. inversion H; subst; simpl.
  exists endpoint, id, token, h0. split; [reflexivity | exact Ho].
Qed.

(** X3.  A constructed uploader always carries the client header
    [AV-Origin-Client: typescript-uploader:<version>], and its Authorization
    header is settled by the credential mode alone: none in upload-token
    mode (the token travels in the URL) and in bypass mode,
    [Bearer <accessToken>] in access-token mode, and
    [Basic <base64 of apiKey:>] in API-key mode. *)
Theorem constructed_headers (pkg : string) (options : Options)
    (this : AbstractUploader) :
  AbstractUploader_constructor pkg options = Ok this ->
  headers this !! "AV-Origin-Client" = Some ("typescript-uploader:" +:+ pkg)
  /\ headers this !! "Authorization"
     = match opt_uploadToken options, opt_accessToken options,
             opt_apiKey options with
       | Some _, _, _ => None
       | None, Some accessToken, _ => Some ("Bearer " +:+ accessToken)
       | None, None, Some apiKey => Some ("Basic " +:+ btoa (apiKey +:+ ":"))
       | None, None, None => None
       end.
Proof.
  intros Hok.
  destruct (AbstractUploader_constructor_headers _ _ _ Hok)
    as (endpoint & id & token & h0 & Hc & Ho).
  rewrite !(origin_headers_other _ _ _ _ Ho) by discriminate.
  rewrite lookup_insert_eq, lookup_insert_ne by discriminate.
  split; [reflexivity |].
  unfold credentials in Hc.
  destruct (opt_uploadToken options) as [t |].
  { inversion Hc; subst. apply lookup_empty. }
  destruct (opt_accessToken options) as [a |].
  { destruct (opt_videoId options) as [v |]; [| discriminate].
    destruct (truthy_string v); [| discriminate].
    inversion Hc; subst. apply lookup_singleton_eq. }
  destruct (opt_apiKey options) as [k |].
  { destruct (opt_videoId options) as [v |]; [| discriminate].
    destruct (truthy_string v); [| discriminate].
    inversion Hc; subst. apply lookup_singleton_eq. }
  destruct (negb (skip_of options)); [discriminate |].
  inversion Hc; subst. apply lookup_empty.
Qed.

Lemma constructed_headers_witness :
  headers access_uploader !! "AV-Origin-Client" = Some "typescript-uploader:1.0.0"
  /\ headers access_uploader !! "Authorization" = Some "Bearer acc0".
Proof.
  exact (constructed_headers "1.0.0" access_options access_uploader eq_refl).
Defined.

(** X4.  Outside upload-token mode the video id of the options goes into
    the endpoint [/videos/<id>/source] and is not stored in
    [this.videoId]: the form data built for a fresh uploader has no
    [videoId] field.  A refresh token is stored in access-token mode only. *)
Theorem constructed_without_stored_id (pkg : string) (options : Options)
    (this : AbstractUploader) :
  AbstractUploader_constructor pkg options = Ok this ->
  opt_uploadToken options = None ->
  this_videoId this = None
  /\ (forall f fileName startByte endByte,
        form_videoId (createFormData this f fileName startByte endByte) = None)
  /\ (is_Some (opt_accessToken options) \/ is_Some (opt_apiKey options) ->
      exists id,
        opt_videoId options = Some id
        /\ uploadEndpoint this
           = "https://" +:+ host_of options +:+ "/videos/" +:+ id +:+ "/source")
  /\ refreshToken this
     = match opt_accessToken options with
       | Some _ => opt_refreshToken options
       | None => None
       end.
Proof.
  intros Hok Htoken.
  destruct (AbstractUploader_constructor_mode _ _ _ Hok) as [h0 Hc].
  unfold credentials in Hc. rewrite Htoken in Hc.
  assert (Hid : this_videoId this = None).
  { destruct (opt_accessToken options); [| destruct (opt_apiKey options)].
    - destruct (opt_videoId options) as [v |]; [| discriminate].
      destruct (truthy_string v); [| discriminate]. inversion Hc; reflexivity.
    - destruct (opt_videoId options) as [v |]; [| discriminate].
      destruct (truthy_string v); [| discriminate]. inversion Hc; reflexivity.
    - destruct (negb (skip_of options)); [discriminate |].
      inversion Hc; reflexivity. }
  split; [exact Hid |]. split.
  { intros f fileName s e. unfold createFormData. simpl. rewrite Hid. reflexivity. }
  split.
  - intros Hkey.
    destruct (opt_accessToken options) as [a |].
    + destruct (opt_videoId options) as [v |]; [| discriminate].
      destruct (truthy_string v); [| discriminate].
      inversion Hc; subst. exists v. split; reflexivity.
    + destruct (opt_apiKey options) as [k |].
      * destruct (opt_videoId options) as [v |]; [| discriminate].
        destruct (truthy_string v); [| discriminate].
        inversion Hc; subst. exists v. split; reflexivity.
      * destruct Hkey as [[x Hx] | [x Hx]]; discriminate.
  - destruct (opt_accessToken options) as [a |].
    + destruct (opt_videoId options) as [v |]; [| discriminate].
      destruct (truthy_string v); [| discriminate]. inversion Hc; reflexivity.
    + destruct (opt_apiKey options) as [k |].
      * destruct (opt_videoId options) as [v |]; [| discriminate].
        destruct (truthy_string v); [| discriminate]. inversion Hc; reflexivity.
      * destruct (negb (skip_of options)); [discriminate |].
        inversion Hc; reflexivity.
Qed.

Lemma constructed_without_stored_id_witness :
  this_videoId access_uploader = None
  /\ uploadEndpoint access_uploader = "https://ws.api.video/videos/vi1/source"
  /\ refreshToken access_uploader = Some "ref0".
Proof.
  destruct (constructed_without_stored_id "1.0.0" access_options access_uploader
              eq_refl eq_refl) as (H1 & _ & H3 & H4).
  split; [exact H1 |]. split; [| exact H4].
  destruct H3 as (id & Hid & He); [left; eexists; reflexivity |].
  inversion Hid; subst. exact He.
Defined.

(** X5.  The checks of the derived constructor come after those of the
    base constructor and in a fixed order: an error of the base constructor
    is the error thrown; then a missing file is reported, also when the
    chunk size is invalid; the chunk size is looked at last.  The
    constructor succeeds exactly when the base constructor does, a file is
    given, and the chunk size is absent, 0, or within the bounds. *)
Theorem derived_constructor_checks (pkg : string) (options : Options) :
  (forall e, AbstractUploader_constructor pkg options = Throw e ->
             VideoUploader_constructor pkg options = Throw e)
  /\ (succeeded (AbstractUploader_constructor pkg options) = true ->
      opt_file options = None ->
      VideoUploader_constructor pkg options = Throw (Error "'file' is missing"))
  /\ succeeded (VideoUploader_constructor pkg options)
     = succeeded (AbstractUploader_constructor pkg options)
       && bool_decide (is_Some (opt_file options))
       && match opt_chunkSize options with
          | None => true
          | Some c => (c =? 0) || ((MIN_CHUNK_SIZE <=? c) && (c <=? MAX_CHUNK_SIZE))
          end.
Proof.
  unfold VideoUploader_constructor.
  destruct (AbstractUploader_constructor pkg options) as [super | err]; simpl.
  - split; [discriminate |]. split.
    + intros _ ->. reflexivity.
    + destruct (opt_file options) as [f |]; [| reflexivity].
      destruct (opt_chunkSize options) as [c |]; [| reflexivity]. simpl.
      unfold truthy_number.
      destruct (Z.eqb_spec c 0); [reflexivity |]. simpl.
      destruct (Z.ltb_spec c MIN_CHUNK_SIZE), (Z.gtb_spec c MAX_CHUNK_SIZE),
        (Z.leb_spec MIN_CHUNK_SIZE c), (Z.leb_spec c MAX_CHUNK_SIZE);
        simpl; try reflexivity; lia.
  - split; [intros e H; inversion H; reflexivity |].
    split; [discriminate | reflexivity].
Qed.

Lemma derived_constructor_checks_witness :
  VideoUploader_constructor "1.0.0"
    (options_of (Some "tok") None None None None None (Some 1) None)
  = Throw (Error "'file' is missing").
Proof.
  apply (proj1 (proj2 (derived_constructor_checks "1.0.0" _))); reflexivity.
Defined.

(** X6.  Every uploader the constructor makes of a file of size at least 0
    has a chunk size within [MIN_CHUNK_SIZE, MAX_CHUNK_SIZE] and a chunk
    count that is the least number of chunks covering the file; the count is
    0 exactly for the empty file. *)
Theorem constructed_chunk_plan (pkg : string) (options : Options)
    (this : VideoUploader) :
  VideoUploader_constructor pkg options = Ok this ->
  0 <= size (file this) ->
  MIN_CHUNK_SIZE <= chunkSize this <= MAX_CHUNK_SIZE
  /\ fileSize this = size (file this)
  /\ 0 <= chunksCount this
  /\ (chunksCount this - 1) * chunkSize this < fileSize this
     <= chunksCount this * chunkSize this
  /\ (chunksCount this = 0 <-> fileSize this = 0).
Proof.
  intros Hok Hsize.
  destruct (VideoUploader_constructor_fields _ _ _ Hok)
    as (Hb & _ & Hfs & Hcount).
  pose proof MIN_CHUNK_SIZE_pos as Hmin.
  destruct (count_chunks_bounds (fileSize this) (chunkSize this) ltac:(lia))
    as [H1 H2].
  rewrite <- Hcount in H1, H2. rewrite <- Hfs in Hsize.
  repeat split; try lia; try nia.
Qed.

Lemma constructed_chunk_plan_witness :
  exists this,
    VideoUploader_constructor "1.0.0" token_options = Ok this
    /\ chunkSize this = 5242880
    /\ chunksCount this = 3
    /\ (chunksCount this - 1) * chunkSize this < fileSize this
       <= chunksCount this * chunkSize this.
Proof.
  eexists. split; [reflexivity |].
  split; [reflexivity |]. split; [reflexivity |].
  refine (proj1 (proj2 (proj2 (proj2
            (constructed_chunk_plan "1.0.0" token_options _ eq_refl _))))).
  simpl. lia.
Defined.

(* ===================================================================== *)
(** ** The requests of upload and the progress events *)
(* ===================================================================== *)

Lemma slice_within (f : File) (startByte endByte : Z) :
  0 <= startByte <= endByte -> endByte <= size f ->
  slice f startByte endByte = {| blob_first := startByte; blob_last := endByte |}.
Proof.
  intros Hs He. unfold slice.
  destruct (Z.ltb_spec startByte 0); [lia |].
  destruct (Z.ltb_spec endByte 0); [lia |].
  f_equal; lia.
Qed.

(** X7.  [createFormData] names the part after [fileName], attaches the
    stored id exactly when it is non-empty, and for a range
    [startByte, endByte) within the file attaches those bytes, unless the
    range is [0, 0): then the test [startByte || endByte] fails and the
    whole file is attached. *)
Theorem createFormData_contents (this : AbstractUploader) (f : File)
    (fileName : string) (startByte endByte : Z) :
  0 <= startByte <= endByte ->
  endByte <= size f ->
  let form := createFormData this f fileName startByte endByte in
  form_fileName form = fileName
  /\ (form_videoId form = None
      <-> this_videoId this = None \/ this_videoId this = Some "")
  /\ (forall id, form_videoId form = Some id -> this_videoId this = Some id)
  /\ (0 < endByte ->
      form_file form = {| blob_first := startByte; blob_last := endByte |})
  /\ (endByte = 0 -> form_file form = whole_file f).
Proof.
  intros Hs He. unfold createFormData. simpl.
  split; [reflexivity |]. split; [| split; [| split]].
  - destruct (this_videoId this) as [id |]; simpl; [| tauto].
    unfold truthy_string. destruct (String.eqb_spec id ""); simpl.
    + subst. tauto.
    + split; [discriminate |]. intros [H | H]; [discriminate | congruence].
  - intros id. destruct (this_videoId this) as [id' |]; simpl; [| discriminate].
    destruct (truthy_string id'); [tauto | discriminate].
  - intros Hpos. unfold truthy_number.
    destruct (Z.eqb_spec endByte 0); [lia |].
    rewrite orb_true_r. apply slice_within; assumption.
  - intros ->. assert (startByte = 0) by lia. subst. reflexivity.
Qed.

Lemma createFormData_contents_witness :
  form_file (createFormData access_uploader movie "movie.mp4" 0 0)
  = whole_file movie.
Proof.
  refine (proj2 (proj2 (proj2 (proj2
            (createFormData_contents access_uploader movie "movie.mp4" 0 0 _ _))))
            eq_refl).
  - lia.
  - simpl. lia.
Defined.

(** The bytes attached for a planned chunk. *)
Lemma createFormData_slice_planned (this : AbstractUploader) (f : File)
    (fileName : string) (fs cs k : Z) :
  size f = fs ->
  0 <= firstByte cs k < lastByte fs cs k ->
  lastByte fs cs k <= fs ->
  form_file (createFormData this f fileName (firstByte cs k) (lastByte fs cs k))
  = {| blob_first := firstByte cs k; blob_last := lastByte fs cs k |}.
Proof.
  intros Hsize Hr Hle.
  unfold createFormData. cbn [form_file]. unfold truthy_number.
  destruct (Z.eqb_spec (lastByte fs cs k) 0); [lia |].
  rewrite orb_true_r. apply slice_within; lia.
Qed.

(** What the loop of [upload] sends, request by request. *)
Lemma upload_loop_requests (todo : nat) :
  forall (this : VideoUploader) (i : Z) (res : JsValue) (sent : list Request)
         (ops : list CancelableOperation),
    exists reqs,
      up_sent (upload_loop todo this i res sent ops) = (sent ++ reqs)%list
      /\ length reqs = todo
      /\ forall k rq,
           nth_error reqs k = Some rq ->
           request_url rq = uploadEndpoint (base this)
           /\ request_headers rq = headers (base this)
           /\ request_parts rq
              = Some (i + Z.of_nat k + 1,
                      count_chunks (fileSize this) (chunkSize this))
           /\ exists form,
                request_form rq = Some form
                /\ form_fileName form = fileName this
                /\ form_file form
                   = form_file
                       (createFormData (base this) (file this) (fileName this)
                          (firstByte (chunkSize this) (i + Z.of_nat k))
                          (lastByte (fileSize this) (chunkSize this)
                             (i + Z.of_nat k))).
Proof.
  induction todo as [| todo IH]; intros this i res sent ops.
  - exists []. simpl. rewrite app_nil_r. split; [reflexivity |].
    split; [reflexivity |]. intros [| k] rq H; discriminate.
  - rewrite upload_loop_turn.
    destruct (IH (with_videoId this None) (i + 1)
                (JsOperation (fst (uploadCurrentChunk this i)))
                (sent ++ [snd (uploadCurrentChunk this i)])%list
                (ops ++ [fst (uploadCurrentChunk this i)])%list)
      as (reqs & Hs & Hl & Hk).
    exists (snd (uploadCurrentChunk this i) :: reqs).
    rewrite Hs, <- app_assoc.
    split; [reflexivity |]. split; [cbn [length]; lia |].
    intros [| k] rq Hrq.
    + inversion Hrq; subst. cbn [Z.of_nat]. rewrite Z.add_0_r.
      repeat split. eexists. repeat split.
    + destruct (Hk k rq Hrq) as (H1 & H2 & H3 & form & H4 & H5 & H6).
      replace (i + Z.of_nat (S k)) with (i + 1 + Z.of_nat k) by lia.
      split; [exact H1 |]. split; [exact H2 |]. split; [exact H3 |].
      exists form. split; [exact H4 |]. split; [exact H5 |]. exact H6.
Qed.

(** A list of consecutive differences sums to the difference of the ends. *)
Lemma total_telescope (g : Z -> Z) (l : list Z) :
  forall i,
    (forall k x, nth_error l k = Some x ->
                 x = g (i + Z.of_nat k + 1) - g (i + Z.of_nat k)) ->
    total l = g (i + Z.of_nat (length l)) - g i.
Proof.
  induction l as [| x l IH]; intros i H.
  - simpl. rewrite Z.add_0_r. lia.
  - cbn [total fold_right]. fold (total l).
    rewrite (IH (i + 1)).
    + rewrite (H 0%nat x eq_refl). cbn [length].
      replace (i + Z.of_nat 0 + 1) with (i + 1) by lia.
      replace (i + Z.of_nat 0) with i by lia.
      replace (i + 1 + Z.of_nat (length l)) with (i + Z.of_nat (S (length l)))
        by lia.
      lia.
    + intros k y Hy. rewrite (H (S k) y Hy).
      replace (i + Z.of_nat (S k)) with (i + 1 + Z.of_nat k) by lia.
      reflexivity.
Qed.

(** X8.  For an uploader made by the constructor of a file of size at
    least 0, [upload] sends exactly [chunksCount] requests, all to the
    upload endpoint with the headers of the uploader; request [k] (from 0)
    carries the part header [k + 1 / chunksCount], the file name, and the
    bytes [firstByte k, lastByte k) of the file; together the requests carry
    every byte of the file once. *)
Theorem upload_sends_the_plan (pkg : string) (options : Options)
    (this : VideoUploader) :
  VideoUploader_constructor pkg options = Ok this ->
  0 <= size (file this) ->
  let sent := up_sent (upload this) in
  length sent = Z.to_nat (chunksCount this)
  /\ (forall k rq,
        nth_error sent k = Some rq ->
        request_url rq = uploadEndpoint (base this)
        /\ request_headers rq = headers (base this)
        /\ request_parts rq = Some (Z.of_nat k + 1, chunksCount this)
        /\ exists form,
             request_form rq = Some form
             /\ form_fileName form = fileName this
             /\ form_file form
                = {| blob_first := firstByte (chunkSize this) (Z.of_nat k);
                     blob_last := lastByte (fileSize this) (chunkSize this)
                                    (Z.of_nat k) |})
  /\ total (map body_bytes sent) = fileSize this.
Proof.
  intros Hok Hsize.
  destruct (VideoUploader_constructor_fields _ _ _ Hok)
    as (Hb & _ & Hfs & Hcount).
  pose proof MIN_CHUNK_SIZE_pos as Hmin.
  assert (Hc : 0 < chunkSize this) by lia.
  destruct (count_chunks_bounds (fileSize this) (chunkSize this) Hc) as [Hlo Hhi].
  rewrite <- Hcount in Hlo, Hhi. rewrite <- Hfs in Hsize.
  assert (Hn : 0 <= chunksCount this) by nia.
  unfold upload.
  destruct (upload_loop_requests (Z.to_nat (chunksCount this)) this 0
              JsUndefined [] []) as (reqs & Hs & Hl & Hk).
  cbv zeta. rewrite Hs. cbn [app].
  assert (Hlast : forall j, lastByte (fileSize this) (chunkSize this) j
                            = Z.min ((j + 1) * chunkSize this) (fileSize this)).
  { intros j. unfold lastByte.
    destruct (Z.gtb_spec ((j + 1) * chunkSize this) (fileSize this)); lia. }
  assert (Hreq : forall k rq,
             nth_error reqs k = Some rq ->
             request_url rq = uploadEndpoint (base this)
             /\ request_headers rq = headers (base this)
             /\ request_parts rq = Some (Z.of_nat k + 1, chunksCount this)
             /\ exists form,
                  request_form rq = Some form
                  /\ form_fileName form = fileName this
                  /\ form_file form
                     = {| blob_first := firstByte (chunkSize this) (Z.of_nat k);
                          blob_last := lastByte (fileSize this) (chunkSize this)
                                         (Z.of_nat k) |}).
  { intros k rq Hrq.
    assert (Hlt : (k < length reqs)%nat)
      by (apply nth_error_Some; rewrite Hrq; discriminate).
    destruct (Hk k rq Hrq) as (H1 & H2 & H3 & form & H4 & H5 & H6).
    rewrite Z.add_0_l in H3, H6. rewrite <- Hcount in H3.
    split; [exact H1 |]. split; [exact H2 |]. split; [exact H3 |].
    exists form. split; [exact H4 |]. split; [exact H5 |].
    rewrite H6.
    assert (Hk0 : 0 <= Z.of_nat k < chunksCount this) by lia.
    apply createFormData_slice_planned.
    - symmetry. exact Hfs.
    - rewrite Hlast. unfold firstByte. nia.
    - rewrite Hlast. lia. }
  split; [exact Hl |]. split; [exact Hreq |].
  rewrite (total_telescope
             (fun j => Z.min (j * chunkSize this) (fileSize this))
             (map body_bytes reqs) 0).
  - rewrite length_map, Hl. rewrite Z2Nat.id by lia. lia.
  - intros k x Hx. rewrite nth_error_map in Hx.
    destruct (nth_error reqs k) as [rq |] eqn:Hrq; [| discriminate].
    inversion Hx; subst; clear Hx.
    assert (Hlt : (k < length reqs)%nat)
      by (apply nth_error_Some; rewrite Hrq; discriminate).
    destruct (Hreq k rq Hrq) as (_ & _ & _ & form & Hf & _ & Hblob).
    destruct rq as [url p h form' | url h t]; [| discriminate].
    simpl in Hf. inversion Hf; subst. simpl. unfold blob_size.
    rewrite Hblob. simpl. rewrite Hlast. unfold firstByte.
    rewrite !Z.add_0_l. nia.
Qed.

Lemma upload_sends_the_plan_witness :
  exists this,
    VideoUploader_constructor "1.0.0" token_options = Ok this
    /\ map request_parts (up_sent (upload this))
       = [Some (1, 3); Some (2, 3); Some (3, 3)]
    /\ total (map body_bytes (up_sent (upload this))) = 12 * 1024 * 1024.
Proof.
  eexists. split; [reflexivity |]. split; [reflexivity |].
  refine (proj2 (proj2 (upload_sends_the_plan "1.0.0" token_options _ eq_refl _))).
  simpl. lia.
Defined.

(** X9.  For an uploader made by the constructor, a progress tick of a
    planned chunk whose [loaded] does not exceed the bytes of the chunk is
    turned into an event that lies within the chunk's range of the file,
    never exceeds [totalBytes], names the chunk from 1 within
    [1 .. chunksCount], and reaches [totalBytes] when the last chunk is fully
    loaded; every registered callback is called once with that event, in
    the order of registration. *)
Theorem progress_event_bounds {C : Type} (pkg : string) (options : Options)
    (this : VideoUploader) (callbacks : list C) (chunkNumber loaded : Z) :
  VideoUploader_constructor pkg options = Ok this ->
  0 <= size (file this) ->
  0 <= chunkNumber < chunksCount this ->
  0 <= loaded <= lastByte (fileSize this) (chunkSize this) chunkNumber
                 - firstByte (chunkSize this) chunkNumber ->
  let ev := progressEventToUploadProgressEvent this chunkNumber loaded in
  firstByte (chunkSize this) chunkNumber <= uploadedBytes ev
    <= lastByte (fileSize this) (chunkSize this) chunkNumber
  /\ 0 <= uploadedBytes ev <= totalBytes ev
  /\ totalBytes ev = size (file this)
  /\ 1 <= currentChunk ev <= progress_chunksCount ev
  /\ currentChunkUploadedBytes ev <= chunksBytes ev
  /\ (chunkNumber + 1 = chunksCount this ->
      loaded = lastByte (fileSize this) (chunkSize this) chunkNumber
               - firstByte (chunkSize this) chunkNumber ->
      uploadedBytes ev = totalBytes ev)
  /\ onProgress_calls callbacks this chunkNumber loaded
     = map (fun cb => (cb, ev)) callbacks.
Proof.
  intros Hok Hsize Hk Hloaded.
  destruct (VideoUploader_constructor_fields _ _ _ Hok)
    as (Hb & _ & Hfs & Hcount).
  pose proof MIN_CHUNK_SIZE_pos as Hmin.
  assert (Hc : 0 < chunkSize this) by lia.
  destruct (count_chunks_bounds (fileSize this) (chunkSize this) Hc) as [Hlo Hhi].
  rewrite <- Hcount in Hlo, Hhi. rewrite <- Hfs in Hsize.
  assert (Hlast : lastByte (fileSize this) (chunkSize this) chunkNumber
                  = Z.min ((chunkNumber + 1) * chunkSize this) (fileSize this)).
  { unfold lastByte.
    destruct (Z.gtb_spec ((chunkNumber + 1) * chunkSize this) (fileSize this)); lia. }
  rewrite Hlast in *. unfold firstByte in *. cbv zeta. simpl.
  unfold firstByte.
  repeat split; try lia; try nia.
Qed.

Lemma progress_event_bounds_witness :
  exists this,
    VideoUploader_constructor "1.0.0" token_options = Ok this
    /\ uploadedBytes (progressEventToUploadProgressEvent this 2 2097152)
       = totalBytes (progressEventToUploadProgressEvent this 2 2097152)
    /\ onProgress_calls (register (register [] "a") "b") this 2 2097152
       = [("a", progressEventToUploadProgressEvent this 2 2097152);
          ("b", progressEventToUploadProgressEvent this 2 2097152)].
Proof.
  eexists. split; [reflexivity |].
  match goal with
  | |- context [progressEventToUploadProgressEvent ?t _ _] =>
      pose proof (@progress_event_bounds string "1.0.0" token_options t
                    ["a"; "b"] 2 2097152 eq_refl) as H
  end.
  assert (H0 : 0 <= 12582912) by lia.
  assert (H1 : 0 <= 2 < 3) by lia.
  assert (H2 : 0 <= 2097152 <= 12582912 - 10485760) by lia.
  destruct (H H0 H1 H2) as (_ & _ & _ & _ & _ & Hfull & Hcalls).
  split; [apply Hfull; reflexivity | exact Hcalls].
Defined.

(* ===================================================================== *)
(** ** More on the transport *)
(* ===================================================================== *)

(** X10.  The status by which the default strategy judges a failed HTTP
    answer is the [status] member of its JSON body when the body parses and
    has one, and the HTTP status otherwise: with that status in [400, 500)
    the answer is never retried, with any other it is retried after the
    backoff delay as long as the attempt index is below the maximum. *)
Theorem http_error_retry_decision (xhr : Xhr) (maxRetries n : Z) :
  let e := parseErrorResponse xhr in
  let judged :=
    match xhr_json xhr with
    | Some j => match j_status j with
                | Some s => s
                | None => xhr_status xhr
                end
    | None => xhr_status xhr
    end in
  status e = Some judged
  /\ (400 <= judged < 500 -> DEFAULT_RETRY_STRATEGY maxRetries n e = None)
  /\ (~ 400 <= judged < 500 -> n < maxRetries ->
      DEFAULT_RETRY_STRATEGY maxRetries n e = Some (backoff n)).
Proof.
  cbv zeta.
  assert (Hst : status (parseErrorResponse xhr)
                = Some match xhr_json xhr with
                       | Some j => match j_status j with
                                   | Some s => s
                                   | None => xhr_status xhr
                                   end
                       | None => xhr_status xhr
                       end).
  { unfold parseErrorResponse.
    destruct (xhr_json xhr) as [j |]; [| reflexivity].
    destruct (j_status j); reflexivity. }
  split; [exact Hst |].
  pose proof (is_client_error_spec (parseErrorResponse xhr)) as Hce.
  unfold client_error in Hce. rewrite Hst in Hce.
  unfold DEFAULT_RETRY_STRATEGY. split.
  - intros Hin.
    rewrite (proj2 Hce) by (eexists; split; [reflexivity | exact Hin]).
    reflexivity.
  - intros Hout Hn.
    destruct (is_client_error (parseErrorResponse xhr)) eqn:Hc.
    + exfalso. destruct (proj1 Hce eq_refl) as (s & Hs & Hr).
      inversion Hs; subst. exact (Hout Hr).
    + destruct (Z.leb_spec maxRetries n); [lia |]. cbv [orb].
      rewrite backoff_delay. reflexivity.
Qed.

Lemma http_error_retry_decision_witness :
  DEFAULT_RETRY_STRATEGY 6 0
    (parseErrorResponse
       {| xhr_status := 503; xhr_response := "{}";
          xhr_json := Some {| j_videoId := None; j_title := None;
                              j_public := None; j_status := Some 400;
                              j_type := None; j_reason := None; j_raw := None;
                              j_access_token := None;
                              j_refresh_token := None |} |})
  = None.
Proof.
  apply (proj1 (proj2 (http_error_retry_decision _ 6 0))). simpl. lia.
Defined.

(** X11.  The refresh request carries every header of the uploader but
    Authorization, and the stored refresh token.  When [doRefreshToken]
    resolves, the answer had a status below 400 and a body with a non-empty
    [access_token] and [refresh_token]; the Authorization header is then
    [Bearer <access_token>], the stored refresh token is the new one, and
    every other header and field of the uploader is as before. *)
Theorem refresh_exchange (this this' : AbstractUploader) (ev : XhrEvent) :
  (authorization_of (refresh_request this) = None
   /\ (forall k, k <> "Authorization" ->
         request_headers (refresh_request this) !! k = headers this !! k)
   /\ refresh_request this
      = RefreshRequest ("https://" +:+ apiHost this +:+ "/auth/refresh")
          (request_headers (refresh_request this)) (refreshToken this))
  /\ (doRefreshToken this ev = (this', Resolved tt) ->
      exists xhr response access refresh,
        ev = Loaded xhr
        /\ xhr_status xhr < 400
        /\ xhr_json xhr = Some response
        /\ j_access_token response = Some access /\ access <> ""
        /\ j_refresh_token response = Some refresh /\ refresh <> ""
        /\ headers this' !! "Authorization" = Some ("Bearer " +:+ access)
        /\ (forall k, k <> "Authorization" ->
              headers this' !! k = headers this !! k)
        /\ refreshToken this' = Some refresh
        /\ uploadEndpoint this' = uploadEndpoint this
        /\ this_videoId this' = this_videoId this
        /\ retries this' = retries this).
Proof.
  split.
  - split; [apply lookup_delete_eq |]. split; [| reflexivity].
    intros k Hk. simpl. apply lookup_delete_ne. congruence.
  - unfold doRefreshToken.
    destruct ev as [xhr | |]; [| discriminate | discriminate].
    destruct (Z.geb_spec (xhr_status xhr) 400) as [Hge | Hlt]; [discriminate |].
    destruct (xhr_json xhr) as [response |] eqn:Hj; [| discriminate].
    destruct (j_access_token response) as [access |] eqn:Ha; [| discriminate].
    destruct (j_refresh_token response) as [refresh |] eqn:Hr; [| discriminate].
    simpl. unfold truthy_string.
    destruct (String.eqb_spec refresh "") as [| Hrne]; simpl; [discriminate |].
    destruct (String.eqb_spec access "") as [| Hane]; simpl; [discriminate |].
    intros H. inversion H; subst; clear H.
    exists xhr, response, access, refresh. simpl.
    split; [reflexivity |]. split; [exact Hlt |]. split; [exact Hj |].
    split; [exact Ha |]. split; [exact Hane |].
    split; [exact Hr |]. split; [exact Hrne |].
    split; [apply lookup_insert_eq |].
    split; [intros k Hk; apply lookup_insert_ne; congruence |].
    repeat split.
Qed.

Lemma refresh_exchange_witness :
  exists this',
    doRefreshToken access_uploader (refreshed "acc1" "ref1") = (this', Resolved tt)
    /\ headers this' !! "Authorization" = Some "Bearer acc1"
    /\ headers this' !! "AV-Origin-Client" = Some "typescript-uploader:1.0.0"
    /\ refreshToken this' = Some "ref1".
Proof.
  eexists. split; [reflexivity |].
  destruct (proj2 (refresh_exchange access_uploader _ (refreshed "acc1" "ref1"))
              eq_refl)
    as (xhr & response & access & refresh & Hev & _ & Hj & Ha & _ & Hr & _
        & Hauth & Hother & Htok & _).
  inversion Hev; subst. simpl in Hj. inversion Hj; subst.
  simpl in Ha, Hr. inversion Ha; inversion Hr; subst.
  split; [exact Hauth |]. split; [| exact Htok].
  rewrite Hother by discriminate. reflexivity.
Defined.

(** X12.  Answers the promise of [createXhrPromise] never settles on: an
    upload answered below 400 with a body that is not JSON; and, after a
    401 with a refresh token stored, a refresh request that fails at the
    transport level or is answered below 400 with a body that is not JSON.
    In these cases exactly the requests made so far have been sent and no
    error reaches the retrier, whatever the network does afterwards. *)
Theorem answers_that_never_settle (this : AbstractUploader)
    (params : HXRRequestParams) (rest : list XhrEvent) :
  (forall xhr,
     xhr_status xhr < 400 -> xhr_json xhr = None ->
     let run := createXhrPromise this params (Loaded xhr :: rest) in
     run_result run = Pending /\ run_sent run = [upload_request this params])
  /\ (forall xhr ev,
        xhr_status xhr = 401 ->
        truthy_opt truthy_string (refreshToken this) = true ->
        ev = NetworkError \/ ev = NetworkTimeout
        \/ (exists answer', ev = Loaded answer' /\ xhr_status answer' < 400
                            /\ xhr_json answer' = None) ->
        let run := createXhrPromise this params (Loaded xhr :: ev :: rest) in
        run_result run = Pending
        /\ run_sent run = [upload_request this params; refresh_request this]).
Proof.
  split.
  - intros xhr Hst Hj. simpl.
    destruct (Z.eqb_spec (xhr_status xhr) 401); [lia |]. simpl.
    destruct (Z.geb_spec (xhr_status xhr) 400); [lia |].
    rewrite Hj. split; reflexivity.
  - intros xhr ev Hst Htok Hev. simpl. rewrite Hst, Htok. simpl.
    destruct Hev as [-> | [-> | (x & -> & Hx & Hj)]]; simpl.
    + split; reflexivity.
    + split; reflexivity.
    + destruct (Z.geb_spec (xhr_status x) 400); [lia |].
      rewrite Hj. split; reflexivity.
Qed.

Lemma answers_that_never_settle_witness :
  let run := createXhrPromise access_uploader sample_params
               [Loaded (answer 401); NetworkError; accepted "vi1"] in
  run_result run = Pending
  /\ run_sent run = [upload_request access_uploader sample_params;
                     refresh_request access_uploader].
Proof.
  apply (proj2 (answers_that_never_settle access_uploader sample_params
                  [accepted "vi1"]) (answer 401) NetworkError eq_refl eq_refl).
  left. reflexivity.
Defined.

Lemma doRefreshToken_endpoint (this : AbstractUploader) (ev : XhrEvent) :
  uploadEndpoint (fst (doRefreshToken this ev)) = uploadEndpoint this.
Proof.
  unfold doRefreshToken. destruct ev as [xhr | |]; try reflexivity.
  destruct (xhr_json xhr) as [response |];
    [| destruct (xhr_status xhr >=? 400); reflexivity].
  destruct (j_access_token response) as [access |];
    [| destruct (xhr_status xhr >=? 400); reflexivity].
  destruct (truthy_opt truthy_string (j_refresh_token response)
            && truthy_string access);
    destruct (xhr_status xhr >=? 400); reflexivity.
Qed.

Ltac settled_run :=
  simpl; repeat split; try lia; try (intros; reflexivity);
  try (repeat constructor; intros; repeat split; discriminate);
  try (repeat constructor; intros; repeat split).

(** The requests of one run of [createXhrPromise], by induction on a bound
    of the length of the network script. *)
Lemma createXhrPromise_requests_bounded (n : nat) :
  forall (network : list XhrEvent) (this : AbstractUploader)
         (params : HXRRequestParams),
    (length network <= n)%nat ->
    let run := createXhrPromise this params network in
    (refresh_calls run <= upload_calls run <= S (refresh_calls run))%nat
    /\ (1 <= upload_calls run)%nat
    /\ (length (run_sent run) <= S (length network))%nat
    /\ Forall (fun rq => is_upload rq = true ->
                 request_url rq = uploadEndpoint this
                 /\ request_parts rq = parts params
                 /\ request_form rq = Some (body params))
         (run_sent run)
    /\ (truthy_opt truthy_string (refreshToken this) = false ->
        run_sent run = [upload_request this params]).
Proof.
  induction n as [| n IH]; intros network this params Hlen.
  - destruct network; [| simpl in Hlen; lia]. settled_run.
  - destruct network as [| ev rest].
    { settled_run. }
    destruct ev as [xhr | |].
    2,3: settled_run.
    cbn [createXhrPromise].
    destruct ((xhr_status xhr =? 401)
              && truthy_opt truthy_string (refreshToken this)) eqn:Hcond.
    + apply andb_true_iff in Hcond. destruct Hcond as [_ Htok].
      destruct rest as [| ev' rest'].
      { settled_run; congruence. }
      pose proof (doRefreshToken_endpoint this ev') as Hend.
      destruct (doRefreshToken this ev') as [this' [[] | e |]]; simpl in Hend.
      * destruct (IH rest' this' params ltac:(simpl in Hlen; lia))
          as (H1 & H2 & H3 & H4 & _).
        cbv zeta. rewrite upload_calls_sent_before, refresh_calls_sent_before.
        split; [lia |]. split; [lia |]. split; [simpl in *; lia |]. split.
        -- simpl. constructor; [intros _; repeat split |].
           constructor; [discriminate |].
           eapply Forall_impl; [exact H4 |]. simpl. intros rq Hrq Hup.
           rewrite <- Hend. exact (Hrq Hup).
        -- rewrite Htok. discriminate.
      * settled_run; congruence.
      * settled_run; congruence.
    + destruct (xhr_status xhr >=? 400); [| destruct (xhr_json xhr)];
        settled_run.
Qed.

(** X13.  Whatever the network does, one run of [createXhrPromise] sends
    the upload request at least once, one refresh request between two
    consecutive submissions and never two refreshes in a row, and at most
    one request more than it got answers; every submission goes to the
    upload endpoint with the same part header and the same body; and
    without a stored refresh token the run is the single submission. *)
Theorem createXhrPromise_requests (network : list XhrEvent)
    (this : AbstractUploader) (params : HXRRequestParams) :
  let run := createXhrPromise this params network in
  (refresh_calls run <= upload_calls run <= S (refresh_calls run))%nat
  /\ (1 <= upload_calls run)%nat
  /\ (length (run_sent run) <= S (length network))%nat
  /\ Forall (fun rq => is_upload rq = true ->
               request_url rq = uploadEndpoint this
               /\ request_parts rq = parts params
               /\ request_form rq = Some (body params))
       (run_sent run)
  /\ (truthy_opt truthy_string (refreshToken this) = false ->
      run_sent run = [upload_request this params]).
Proof.
  apply (createXhrPromise_requests_bounded (length network)). lia.
Qed.

Lemma createXhrPromise_requests_witness :
  run_sent (createXhrPromise
              (set_credentials access_uploader "Bearer acc0" None) sample_params
              [Loaded (answer 401); refreshed "acc1" "ref1"; accepted "vi1"])
  = [upload_request (set_credentials access_uploader "Bearer acc0" None)
       sample_params].
Proof.
  apply (proj2 (proj2 (proj2 (proj2
           (createXhrPromise_requests _ _ sample_params))))).
  reflexivity.
Defined.

(* ===================================================================== *)
(** ** More on the retrier *)
(* ===================================================================== *)

Lemma run_app (strategy : RetryStrategy) (r : Retrier)
    (events events' : list RetrierEvent) :
  run strategy r (events ++ events')
  = run strategy (run strategy r events) events'.
Proof. apply fold_left_app. Qed.

Lemma default_strategy_transient (maxRetries n : Z) (e : VideoUploadError) :
  transient e -> n < maxRetries ->
  DEFAULT_RETRY_STRATEGY maxRetries n e = Some (backoff n).
Proof.
  intros [Hce _] Hn. unfold DEFAULT_RETRY_STRATEGY.
  destruct (is_client_error e) eqn:Hc.
  - exfalso. apply Hce, is_client_error_spec, Hc.
  - destruct (Z.leb_spec maxRetries n); [lia |]. cbv [orb].
    rewrite backoff_delay. reflexivity.
Qed.

(** One failed attempt that is retried: the sleep and the next call. *)
Lemma failed_attempt_retried (maxRetries : Z) (r : Retrier)
    (e : VideoUploadError) :
  phase r = Attempting true -> signal_aborted r = false ->
  transient e -> retriesCount r < maxRetries ->
  run (DEFAULT_RETRY_STRATEGY maxRetries) r [FnRejected e; TimerFired]
  = {| retriesCount := retriesCount r + 1;
       phase := Attempting true;
       signal_aborted := false;
       registered := registered r;
       fn_calls := fn_calls r ++ [false];
       slept := slept r ++ [backoff (retriesCount r)] |}.
Proof.
  intros Hp Ha Ht Hn. unfold run. cbn [fold_left].
  unfold step at 2. rewrite Hp. destruct Ht as [Hce Hab]. rewrite Hab.
  rewrite (default_strategy_transient maxRetries _ e (conj Hce Hab) Hn).
  unfold step. cbn [sleep phase]. unfold call_fn, woken. cbn. rewrite Ha.
  reflexivity.
Qed.

(** Any number of failed attempts within the maximum. *)
Lemma failed_attempts_retried (maxRetries : Z) (errors : list VideoUploadError) :
  forall r,
    phase r = Attempting true -> signal_aborted r = false ->
    Forall transient errors ->
    retriesCount r + Z.of_nat (length errors) <= maxRetries ->
    let r' := run (DEFAULT_RETRY_STRATEGY maxRetries) r (failures errors) in
    phase r' = Attempting true
    /\ signal_aborted r' = false
    /\ retriesCount r' = retriesCount r + Z.of_nat (length errors)
    /\ transport_calls r' = (transport_calls r + length errors)%nat
    /\ slept r'
       = (slept r ++ map (fun i => backoff (retriesCount r + Z.of_nat i))
                       (seq 0 (length errors)))%list.
Proof.
  induction errors as [| e errors IH]; intros r Hp Ha Hall Hmax.
  - simpl. rewrite app_nil_r. repeat split; try assumption; lia.
  - inversion Hall as [| ? ? He Hrest]; subst.
    cbn [length] in Hmax. cbv zeta.
    change (failures (e :: errors))
      with ([FnRejected e; TimerFired] ++ failures errors)%list.
    rewrite run_app, (failed_attempt_retried maxRetries r e Hp Ha He) by lia.
    match goal with
    | |- context [run _ ?r1 (failures errors)] =>
        destruct (IH r1 eq_refl eq_refl Hrest) as (H1 & H2 & H3 & H4 & H5);
          [cbn; lia |]
    end.
    cbn [retriesCount slept fn_calls] in H3, H4, H5.
    unfold transport_calls in *. cbn [fn_calls] in H4.
    rewrite length_app in H4. cbn [length] in *.
    split; [exact H1 |]. split; [exact H2 |]. split; [lia |]. split; [lia |].
    rewrite H5, <- app_assoc. f_equal. cbn [app seq map].
    rewrite Z.add_0_r. f_equal.
    rewrite <- seq_shift, map_map. apply map_ext. intros i. f_equal. lia.
Qed.

(** X14.  With the default strategy and a maximum of [maxRetries], an
    action that fails [k <= maxRetries] times with errors that are neither
    client errors nor aborts, and then succeeds, is called [k + 1] times;
    the operation resolves with the response of the last call after
    sleeping [200 + 2000 * i * (i + 1)] ms before retry [i + 1], for
    [i = 0 .. k - 1] (200 ms, 4200 ms, 12200 ms, ...). *)
Theorem retries_then_success (maxRetries : Z) (errors : list VideoUploadError)
    (res : VideoUploadResponse) :
  Forall transient errors ->
  Z.of_nat (length errors) <= maxRetries ->
  let r := run (DEFAULT_RETRY_STRATEGY maxRetries) withRetrier
             (failures errors ++ [FnResolved res]) in
  phase r = Settled (Resolved res)
  /\ transport_calls r = S (length errors)
  /\ slept r = backoffs (length errors).
Proof.
  intros Hall Hmax. cbv zeta. rewrite run_app.
  destruct (failed_attempts_retried maxRetries errors withRetrier
              eq_refl eq_refl Hall) as (H1 & H2 & H3 & H4 & H5);
    [simpl; lia |].
  set (r := run (DEFAULT_RETRY_STRATEGY maxRetries) withRetrier (failures errors))
    in *.
  assert (Hstep : run (DEFAULT_RETRY_STRATEGY maxRetries) r [FnResolved res]
                  = in_phase r (Settled (Resolved res))).
  { unfold run. cbn [fold_left]. unfold step. rewrite H1. reflexivity. }
  rewrite Hstep. unfold transport_calls in *. cbn [in_phase phase fn_calls slept].
  split; [reflexivity |]. split; [exact H4 |].
  rewrite H5. simpl. unfold backoffs. apply map_ext. intros i. f_equal.
Qed.

Lemma retries_then_success_witness :
  let r := run (DEFAULT_RETRY_STRATEGY 6) withRetrier
             [FnRejected server_error; TimerFired;
              FnRejected (transport_failure "NETWORK_ERROR"); TimerFired;
              FnResolved sample_response] in
  phase r = Settled (Resolved sample_response)
  /\ transport_calls r = 3%nat
  /\ slept r = [200; 4200].
Proof.
  apply (retries_then_success 6
           [server_error; transport_failure "NETWORK_ERROR"] sample_response).
  - repeat constructor.
    + intros (s & Hs & Hr). inversion Hs; subst. lia.
    + intros (s & Hs & Hr). discriminate.
  - simpl. lia.
Defined.

(** X15.  With the default strategy, an operation is rejected with the
    error of an attempt as soon as that error is a client error, or once
    [maxRetries] retries have been made: after [k <= maxRetries] retried
    failures, a further failure that is a client error, or any further
    failure when [k = maxRetries], settles the operation with that error
    after [k + 1] calls in all, and nothing that happens later changes the
    result or makes another call. *)
Theorem retries_then_failure (maxRetries : Z) (errors : list VideoUploadError)
    (final : VideoUploadError) (later : list RetrierEvent) :
  Forall transient errors ->
  Z.of_nat (length errors) <= maxRetries ->
  client_error final \/ Z.of_nat (length errors) = maxRetries ->
  let r := run (DEFAULT_RETRY_STRATEGY maxRetries) withRetrier
             (failures errors ++ FnRejected final :: later) in
  phase r = Settled (Rejected final)
  /\ transport_calls r = S (length errors)
  /\ slept r = backoffs (length errors).
Proof.
  intros Hall Hmax Hfinal. cbv zeta. rewrite run_app.
  destruct (failed_attempts_retried maxRetries errors withRetrier
              eq_refl eq_refl Hall) as (H1 & H2 & H3 & H4 & H5);
    [simpl; lia |].
  set (r := run (DEFAULT_RETRY_STRATEGY maxRetries) withRetrier (failures errors))
    in *.
  assert (Hstep : step (DEFAULT_RETRY_STRATEGY maxRetries) r (FnRejected final)
                  = in_phase r (Settled (Rejected final))).
  { unfold step. rewrite H1.
    destruct (is_aborted final); [reflexivity |].
    assert (Hnull : DEFAULT_RETRY_STRATEGY maxRetries (retriesCount r) final = None).
    { unfold DEFAULT_RETRY_STRATEGY.
      destruct Hfinal as [Hce | Hk].
      - rewrite (proj2 (is_client_error_spec final) Hce). reflexivity.
      - destruct (Z.leb_spec maxRetries (retriesCount r)) as [_ | Hlt].
        + rewrite orb_true_r. reflexivity.
        + simpl in H3. lia. }
    rewrite Hnull. reflexivity. }
  change (run (DEFAULT_RETRY_STRATEGY maxRetries) r (FnRejected final :: later))
    with (run (DEFAULT_RETRY_STRATEGY maxRetries)
            (step (DEFAULT_RETRY_STRATEGY maxRetries) r (FnRejected final)) later).
  rewrite Hstep.
  destruct (run_settled (DEFAULT_RETRY_STRATEGY maxRetries) later
              (in_phase r (Settled (Rejected final))) _ eq_refl) as [Hp Hc].
  split; [exact Hp |].
  unfold transport_calls in *. rewrite Hc. cbn [in_phase fn_calls].
  split; [exact H4 |].
  assert (Hslept : forall events r0 s,
             phase r0 = Settled s ->
             slept (run (DEFAULT_RETRY_STRATEGY maxRetries) r0 events) = slept r0).
  { induction events as [| ev events IH]; intros r0 s Hs; [reflexivity |].
    simpl.
    destruct (settled_is_final (DEFAULT_RETRY_STRATEGY maxRetries) r0 s ev Hs)
      as [Hs' _].
    rewrite (IH _ _ Hs'). unfold step. rewrite Hs.
    destruct ev; try reflexivity. destruct (registered r0); reflexivity. }
  rewrite (Hslept later (in_phase r (Settled (Rejected final))) _ eq_refl).
  cbn [in_phase slept].
  rewrite H5. simpl. unfold backoffs. apply map_ext. intros i. f_equal.
Qed.

Lemma retries_then_failure_witness :
  let not_found :=
    {| status := Some 404; type := None; err_title := None;
       reason := None; raw := Some "" |} in
  let r := run (DEFAULT_RETRY_STRATEGY 6) withRetrier
             [FnRejected not_found; TimerFired; FnResolved sample_response] in
  phase r = Settled (Rejected not_found)
  /\ transport_calls r = 1%nat
  /\ slept r = [].
Proof.
  intros not_found.
  apply (retries_then_failure 6 [] not_found [TimerFired; FnResolved sample_response]).
  - constructor.
  - simpl. lia.
  - left. exists 404. split; [reflexivity | lia].
Defined.

Lemma step_keeps_invariant (strategy : RetryStrategy) (r : Retrier)
    (ev : RetrierEvent) :
  retrier_invariant r -> retrier_invariant (step strategy r ev).
Proof.
  unfold retrier_invariant, transport_calls.
  intros (H0 & Hcalls & Hslept & Hab & Hlisten).
  unfold step.
  destruct ev as [res | e | |];
    destruct (phase r) as [listening | d | s] eqn:Hp;
    try destruct (is_aborted e);
    try destruct (strategy (retriesCount r) e);
    try destruct (registered r) eqn:Hreg;
    try destruct listening;
    cbn [in_phase sleep woken call_fn aborted_and_deleted retriesCount phase
         signal_aborted registered fn_calls slept];
    rewrite ?Hp, ?Hreg, ?length_app; cbn [length negb];
    repeat split; try assumption; try lia; try discriminate;
    try (intros; congruence);
    try (destruct (signal_aborted r); simpl; intros; congruence).
Qed.

Lemma run_keeps_invariant (strategy : RetryStrategy)
    (events : list RetrierEvent) :
  forall r, retrier_invariant r -> retrier_invariant (run strategy r events).
Proof.
  induction events as [| ev events IH]; intros r Hr; [exact Hr |].
  simpl. apply IH, step_keeps_invariant, Hr.
Qed.

Lemma withRetrier_invariant : retrier_invariant withRetrier.
Proof.
  unfold retrier_invariant, transport_calls. simpl.
  repeat split; try lia.
Qed.

(** X16.  Whatever the retry strategy and whatever happens to an operation
    made by [withRetrier], at every moment: the retry counter is not
    negative; the action has been called once more than the counter says;
    the operation has slept once per retry made, and once more while it is
    sleeping; the signal is aborted exactly when the registry entry is gone;
    and an attempt whose abort listener can fire is one made before any
    [cancel()]. *)
Theorem retrier_bookkeeping (strategy : RetryStrategy)
    (events : list RetrierEvent) :
  let r := run strategy withRetrier events in
  0 <= retriesCount r
  /\ Z.of_nat (transport_calls r) = retriesCount r + 1
  /\ Z.of_nat (length (slept r))
     = match phase r with
       | Sleeping _ => retriesCount r + 1
       | _ => retriesCount r
       end
  /\ signal_aborted r = negb (registered r)
  /\ (phase r = Attempting true -> signal_aborted r = false).
Proof.
  exact (run_keeps_invariant strategy events withRetrier withRetrier_invariant).
Qed.

(** X17.  At any moment of an operation at which the request of an attempt
    is pending and [cancel()] has not been called before, [cancel()] settles
    the operation as ABORTED; after that no event, a further [cancel()]
    included, changes the result, calls the action or starts a sleep. *)
Theorem cancel_pending_attempt (strategy : RetryStrategy)
    (before after : list RetrierEvent) :
  let r := run strategy withRetrier before in
  phase r = Attempting true ->
  let r' := run strategy r (Cancel :: after) in
  phase r' = Settled (Rejected (transport_failure "ABORTED"))
  /\ fn_calls r' = fn_calls r
  /\ retriesCount r' = retriesCount r
  /\ signal_aborted r' = true.
Proof.
  intros r Hp r'.
  destruct (run_keeps_invariant strategy before withRetrier withRetrier_invariant)
    as (_ & _ & _ & Hab & Hlisten).
  fold r in Hab, Hlisten.
  assert (Hreg : registered r = true).
  { rewrite (Hlisten Hp) in Hab. destruct (registered r); [reflexivity | discriminate]. }
  assert (Hs : step strategy r Cancel
               = in_phase (aborted_and_deleted r)
                   (Settled (Rejected (transport_failure "ABORTED")))).
  { unfold step. rewrite Hp, Hreg. reflexivity. }
  subst r'. change (run strategy r (Cancel :: after))
    with (run strategy (step strategy r Cancel) after).
  rewrite Hs.
  set (r1 := in_phase (aborted_and_deleted r)
               (Settled (Rejected (transport_failure "ABORTED")))).
  assert (Hinert : forall events r0 s,
             phase r0 = Settled s -> registered r0 = false ->
             run strategy r0 events = r0).
  { induction events as [| ev events IH]; intros r0 s Hs0 Hr0; [reflexivity |].
    simpl.
    assert (Hstep : step strategy r0 ev = r0).
    { unfold step. rewrite Hs0, Hr0. destruct ev; reflexivity. }
    rewrite Hstep. exact (IH r0 s Hs0 Hr0). }
  rewrite (Hinert after r1 _ eq_refl eq_refl).
  repeat split.
Qed.

Lemma cancel_pending_attempt_witness :
  let r := run (DEFAULT_RETRY_STRATEGY 6) withRetrier
             [FnRejected server_error; TimerFired] in
  let r' := run (DEFAULT_RETRY_STRATEGY 6) r
              [Cancel; FnResolved sample_response; Cancel; TimerFired] in
  phase r' = Settled (Rejected (transport_failure "ABORTED"))
  /\ fn_calls r' = fn_calls r
  /\ retriesCount r' = retriesCount r
  /\ signal_aborted r' = true.
Proof.
  apply (cancel_pending_attempt (DEFAULT_RETRY_STRATEGY 6)
           [FnRejected server_error; TimerFired]
           [FnResolved sample_response; Cancel; TimerFired]).
  reflexivity.
Defined.

Lemma total_backoffs (k : nat) :
  3 * total (backoffs k)
  = 600 * Z.of_nat k
    + 2000 * (Z.of_nat k - 1) * Z.of_nat k * (Z.of_nat k + 1).
Proof.
  unfold backoffs. induction k as [| k IH].
  - reflexivity.
  - rewrite seq_S, map_app. cbn [map Nat.add].
    assert (Happ : forall l x, total (l ++ [x]) = total l + x).
    { induction l as [| y l IHl]; intros x; simpl; [lia |].
      fold (total (l ++ [x])) (total l). rewrite IHl. lia. }
    rewrite Happ. unfold backoff at 2. nia.
Qed.

(** X18.  The delays of the default strategy for an error that is not a
    client error start at 200 ms and grow by [4000 * (n + 1)] ms from
    attempt [n] to attempt [n + 1]; the first [k] of them add up to
    [200 * k + 2000 * (k - 1) * k * (k + 1) / 3] ms, which for the default
    of 6 retries is 141200 ms. *)
Theorem default_backoff_growth (maxRetries : Z) (e : VideoUploadError) :
  ~ client_error e ->
  (forall n, n < maxRetries ->
     DEFAULT_RETRY_STRATEGY maxRetries n e = Some (backoff n))
  /\ backoff 0 = 200
  /\ (forall n, backoff (n + 1) - backoff n = 4000 * (n + 1))
  /\ (forall k,
        3 * total (backoffs k)
        = 600 * Z.of_nat k
          + 2000 * (Z.of_nat k - 1) * Z.of_nat k * (Z.of_nat k + 1))
  /\ total (backoffs (Z.to_nat DEFAULT_RETRIES)) = 141200.
Proof.
  intros Hce. split.
  - intros n Hn. unfold DEFAULT_RETRY_STRATEGY.
    destruct (is_client_error e) eqn:Hc.
    + exfalso. apply Hce, is_client_error_spec, Hc.
    + destruct (Z.leb_spec maxRetries n); [lia |]. cbv [orb].
      rewrite backoff_delay. reflexivity.
  - split; [reflexivity |]. split; [intros n; unfold backoff; lia |].
    split; [exact total_backoffs | reflexivity].
Qed.

Lemma default_backoff_growth_witness :
  DEFAULT_RETRY_STRATEGY 6 5 server_error = Some (backoff 5)
  /\ backoff 5 = 60200.
Proof.
  split; [| reflexivity].
  apply (proj1 (default_backoff_growth 6 server_error
                  ltac:(intros (s & Hs & Hr); inversion Hs; subst; lia))).
  lia.
Defined.

(* ===================================================================== *)
(** ** Polling until the video is playable *)
(* ===================================================================== *)

Lemma waitForPlayable_not_ready {C : Type} (callbacks : list C)
    (video : VideoUploadResponse) (hls : option string) (ev : FetchEvent)
    (rest : list FetchEvent) :
  not_ready ev ->
  waitForPlayable callbacks video hls (ev :: rest)
  = another_round hls (waitForPlayable callbacks video hls rest).
Proof.
  destruct ev as [code text |]; [| contradiction].
  intros [-> | ->]; simpl; [reflexivity |].
  destruct (code =? 202); reflexivity.
Qed.

Lemma String_length_zero (s : string) : String.length s = 0%nat -> s = "".
Proof. destruct s; [reflexivity | discriminate]. Qed.

(** X19.  [waitForPlayable] polls every 500 ms, always the same url, as
    long as the answers have status 202 or an empty text; at the first
    answer that has neither it stops, having slept 500 ms per fetch, and
    calls every registered playable callback once with the video, in the
    order of registration.  What the network would answer afterwards plays
    no part. *)
Theorem playable_at_first_ready_answer {C : Type} (callbacks : list C)
    (video : VideoUploadResponse) (hls : option string)
    (early later : list FetchEvent) (code : Z) (text : string) :
  Forall not_ready early ->
  code <> 202 -> text <> "" ->
  let run := waitForPlayable callbacks video hls
               (early ++ Fetched code text :: later) in
  poll_state run = Notified
  /\ fetched run = repeat hls (S (length early))
  /\ waited run = 500 * (Z.of_nat (length early) + 1)
  /\ onPlayable_calls run = map (fun cb => (cb, video)) callbacks.
Proof.
  intros Hearly Hcode Htext.
  induction Hearly as [| ev early Hev Hearly IH].
  - cbn [app waitForPlayable length repeat].
    destruct (Z.eqb_spec code 202); [contradiction |].
    destruct (Nat.eqb_spec (String.length text) 0) as [H0 | _].
    + exfalso. apply Htext, String_length_zero, H0.
    + repeat split.
  - cbv zeta in *. cbn [app]. rewrite (waitForPlayable_not_ready _ _ _ _ _ Hev).
    destruct IH as (H1 & H2 & H3 & H4).
    cbn [another_round poll_state fetched waited onPlayable_calls length].
    rewrite H2, H3. repeat split; try assumption.
    lia.
Qed.

Lemma playable_at_first_ready_answer_witness :
  let run := waitForPlayable ["first"; "second"] sample_response
               (Some "https://cdn/hls.m3u8")
               [Fetched 202 "processing"; Fetched 200 ""; Fetched 200 "#EXTM3U";
                FetchFailed] in
  poll_state run = Notified
  /\ fetched run = repeat (Some "https://cdn/hls.m3u8") 3
  /\ waited run = 1500
  /\ onPlayable_calls run
     = [("first", sample_response); ("second", sample_response)].
Proof.
  apply (playable_at_first_ready_answer ["first"; "second"] sample_response
           (Some "https://cdn/hls.m3u8")
           [Fetched 202 "processing"; Fetched 200 ""] [FetchFailed]
           200 "#EXTM3U").
  - constructor; [left; reflexivity |].
    constructor; [right; reflexivity | constructor].
  - lia.
  - discriminate.
Defined.

(** X20.  As long as every answer has status 202 or an empty text,
    [waitForPlayable] keeps polling, without a bound on the number of
    rounds, and calls no callback; and a [fetch] that rejects before any
    ready answer ends the polling with that rejection, again without
    calling a callback. *)
Theorem not_playable_no_callback {C : Type} (callbacks : list C)
    (video : VideoUploadResponse) (hls : option string)
    (early later : list FetchEvent) :
  Forall not_ready early ->
  (let run := waitForPlayable callbacks video hls early in
   poll_state run = Polling
   /\ length (fetched run) = S (length early)
   /\ waited run = 500 * (Z.of_nat (length early) + 1)
   /\ onPlayable_calls run = [])
  /\ (let run := waitForPlayable callbacks video hls
                   (early ++ FetchFailed :: later) in
      poll_state run = FetchRejected
      /\ length (fetched run) = S (length early)
      /\ onPlayable_calls run = []).
Proof.
  intros Hearly.
  induction Hearly as [| ev early Hev Hearly IH].
  - cbn. repeat split; try reflexivity; try lia.
  - cbv zeta in *. cbn [app]. rewrite !(waitForPlayable_not_ready _ _ _ _ _ Hev).
    destruct IH as [(H1 & H2 & H3 & H4) (H5 & H6 & H7)].
    cbn [another_round poll_state fetched waited onPlayable_calls length].
    rewrite H2, H3, H6. repeat split; try assumption. lia.
Qed.

Lemma not_playable_no_callback_witness :
  let run := waitForPlayable ["first"] sample_response None
               [Fetched 202 ""; Fetched 200 ""; Fetched 202 "x"] in
  poll_state run = Polling
  /\ length (fetched run) = 4%nat
  /\ waited run = 2000
  /\ onPlayable_calls run = [].
Proof.
  refine (proj1 (not_playable_no_callback ["first"] sample_response None
                   [Fetched 202 ""; Fetched 200 ""; Fetched 202 "x"] [] _)).
  constructor; [left; reflexivity |].
  constructor; [right; reflexivity |].
  constructor; [left; reflexivity | constructor].
Defined.

(* ===================================================================== *)
(** ** The bypass flag *)
(* ===================================================================== *)

Lemma VideoUploader_constructor_base (pkg : string) (options : Options)
    (this : VideoUploader) :
  VideoUploader_constructor pkg options = Ok this ->
  AbstractUploader_constructor pkg options = Ok (base this).
Proof.
  unfold VideoUploader_constructor.
  destruct (AbstractUploader_constructor pkg options) as [super | err];
    simpl; [| discriminate].
  destruct (opt_file options) as [f |]; [| discriminate].
  destruct (truthy_opt truthy_number (opt_chunkSize options) && _);
    [discriminate |].
  intros H. inversion H; subst. reflexivity.
Qed.

Lemma AbstractUploader_constructor_skip (pkg : string) (options : Options)
    (this : AbstractUploader) :
  AbstractUploader_constructor pkg options = Ok this ->
  skipUploadToAPIVideo this = skip_of options.
Proof.
  unfold AbstractUploader_constructor. fold (host_of options) (skip_of options).
  destruct (credentials (host_of options) (skip_of options) options)
    as [[[[endpoint id] token] h0] | err]; simpl; [| discriminate].
  destruct (origin_headers options _) as [h2 | err]; simpl; [| discriminate].
  intros H. inversion H; subst. reflexivity.
Qed.

(** X21.  With no credential key and the bypass flag
    [skipUploadToAPIVideo] set, the uploader is built with an empty upload
    endpoint and without an Authorization header, and [upload] takes no
    notice of the flag: it still sends one request per planned chunk, each
    to the empty url. *)
Theorem bypass_still_uploads (pkg : string) (options : Options)
    (this : VideoUploader) :
  opt_uploadToken options = None ->
  opt_accessToken options = None ->
  opt_apiKey options = None ->
  VideoUploader_constructor pkg options = Ok this ->
  opt_skipUploadToAPIVideo options = Some true
  /\ skipUploadToAPIVideo (base this) = true
  /\ uploadEndpoint (base this) = ""
  /\ headers (base this) !! "Authorization" = None
  /\ length (up_sent (upload this)) = Z.to_nat (chunksCount this)
  /\ Forall (fun rq => request_url rq = "") (up_sent (upload this)).
Proof.
  intros Htoken Haccess Hkey Hok.
  pose proof (VideoUploader_constructor_base _ _ _ Hok) as Hbase.
  destruct (AbstractUploader_constructor_headers _ _ _ Hbase)
    as (endpoint & id & token & h0 & Hc & Ho).
  destruct (AbstractUploader_constructor_mode _ _ _ Hbase) as [h0' Hm].
  rewrite Hm in Hc. inversion Hc; subst; clear Hc.
  unfold credentials in Hm. rewrite Htoken, Haccess, Hkey in Hm.
  destruct (skip_of options) eqn:Hskip; simpl in Hm; [| discriminate].
  inversion Hm as [[Hend Hid Hrt Hh]].
  assert (Hflag : opt_skipUploadToAPIVideo options = Some true).
  { unfold skip_of, or_else in Hskip.
    destruct (opt_skipUploadToAPIVideo options) as [[|] |];
      [reflexivity | discriminate | discriminate]. }
  assert (Hstored : skipUploadToAPIVideo (base this) = true).
  { rewrite (AbstractUploader_constructor_skip _ _ _ Hbase). exact Hskip. }
  split; [exact Hflag |]. split; [exact Hstored |].
  split; [congruence |]. split.
  { rewrite (origin_headers_other _ _ _ _ Ho) by discriminate.
    rewrite lookup_insert_ne by discriminate. subst h0. apply lookup_empty. }
  unfold upload.
  destruct (upload_loop_requests (Z.to_nat (chunksCount this)) this 0
              JsUndefined [] []) as (reqs & Hs & Hl & Hk).
  rewrite Hs. cbn [app]. split; [exact Hl |].
  apply List.Forall_forall. intros rq Hin.
  destruct (In_nth_error _ _ Hin) as [k Hrq].
  destruct (Hk k rq Hrq) as (Hurl & _). congruence.
Qed.

Lemma bypass_still_uploads_witness :
  exists this,
    VideoUploader_constructor "1.0.0" bypass_options = Ok this
    /\ uploadEndpoint (base this) = ""
    /\ map request_url (up_sent (upload this)) = [""].
Proof.
  eexists. split; [reflexivity |].
  split; [| reflexivity].
  match goal with
  | |- uploadEndpoint (base ?t) = _ =>
      exact (proj1 (proj2 (proj2
               (bypass_still_uploads "1.0.0" bypass_options t
                  eq_refl eq_refl eq_refl eq_refl))))
  end.
Defined.
